(** * Schelling segregation model (seg_pygame.py): engine embedding

    A shallow embedding of the simulation core of [seg_pygame.py]:
    the [DataScientist] agent, the [GridWorld] environment and the
    iteration loop of [Model.run].  Of the pygame part, the calls that
    [draw_environment] makes on the display surface and the event
    handling of the wait for a key are embedded as functions of what
    the library hands to the program; what pygame does with a call,
    plotting and timing are left out.

    Python objects are shared by reference: the same [DataScientist]
    object is reachable from [GridWorld.agents] and from a cell of
    [GridWorld.grid].  The embedding keeps one store of agent objects,
    the list [agents] in creation order, and a reference is an index
    into that store; a grid cell holds [None] or a reference.

    Exceptions do not roll the state back, so every operation is a
    function from a world to an outcome and the world it leaves behind.

    Python ints are [Z]; Python floats are IEEE 754 binary64 values
    ([spec_float] at precision 53), so that [int(n_agents * 0.5)] and
    [float(n_similar) / float(len(neighbours)) < threshold] are computed
    as the interpreter computes them.  The generator of the [random]
    module is library code and enters as an interface ([RandomSource]);
    [shuffle] and [choice] are written over it as the library writes
    them.

    The file has three parts: the embedding, its properties for every
    random source, and runs on concrete inputs with a small generator. *)

From Stdlib Require Import ZArith List Bool Lia SpecFloat.
From stdpp Require Import base list.

Local Open Scope Z_scope.

(** ** Exceptions *)

(** The built-in exceptions the modelled statements can raise, and the
    two error conditions named by the specification ([GridFull],
    [InvalidConfiguration]).  No statement of the program raises the
    latter two; they are here so that statements about them can be
    written down.  [DanglingRef] is not a Python exception: it marks the
    use of a reference outside the store, which no execution produces
    (Python references cannot dangle). *)
Inductive exn :=
  | IndexError
  | ValueError
  | OverflowError
  | ZeroDivisionError
  | AttributeError
  | DanglingRef
  | GridFull
  | InvalidConfiguration.

Inductive result (A : Type) :=
  | Ok (a : A)
  | Raise (e : exn).
Arguments Ok {A} a.
Arguments Raise {A} e.

Definition is_ok {A} (r : result A) : bool :=
  match r with Ok _ => true | Raise _ => false end.

(** ** Python floats (IEEE 754 binary64) *)

Definition prec : Z := 53.
Definition emax : Z := 1024.
Definition float := spec_float.

(** [float(n)] for an int: round to nearest even; an int too large for a
    double raises [OverflowError]. *)
Definition float_of_int (n : Z) : result float :=
  match binary_normalize prec emax n 0 false with
  | S754_infinity _ => Raise OverflowError
  | f => Ok f
  end.

(** [int(x)] for a float: truncation towards zero. *)
Definition int_of_float (x : float) : result Z :=
  match x with
  | S754_zero _ => Ok 0
  | S754_finite s m e =>
      Ok (cond_Zopp s (if 0 <=? e then Z.shiftl (Zpos m) e
                       else Z.shiftr (Zpos m) (- e)))
  | S754_infinity _ => Raise OverflowError
  | S754_nan => Raise ValueError
  end.

(** [x / y] on floats: a zero divisor raises. *)
Definition float_truediv (x y : float) : result float :=
  match y with
  | S754_zero _ => Raise ZeroDivisionError
  | _ => Ok (SFdiv prec emax x y)
  end.

Definition float_lt (x y : float) : bool := SFltb x y.

(** ** Module constants *)

Definition N_ROWS : Z := 50.
Definition N_COLS : Z := 50.
Definition N_CELLS : Z := N_ROWS * N_COLS.

Inductive Lang := LANG_PYTHON | LANG_R.

Definition Lang_eqb (a b : Lang) : bool :=
  match a, b with
  | LANG_PYTHON, LANG_PYTHON | LANG_R, LANG_R => true
  | _, _ => false
  end.

(** The literals [0.5] and [0.3] as binary64 values. *)
Definition RATIO_R_TO_PYTHON : float := S754_finite false 4503599627370496 (-53).
Definition PERCENT_EMPTY : float := S754_finite false 5404319552844595 (-54).
Definition SIMILARITY_THRESHOLD : float := S754_finite false 5404319552844595 (-54).
Definition MAX_ITER : Z := 500.

(** ** Python list operations *)

(** [l[i]] with an int index: negative indices count from the end,
    anything outside [-len, len) is an [IndexError]. *)
Definition py_index (len : nat) (i : Z) : option nat :=
  if (0 <=? i) && (i <? Z.of_nat len) then Some (Z.to_nat i)
  else if (- Z.of_nat len <=? i) && (i <? 0) then Some (Z.to_nat (Z.of_nat len + i))
  else None.

Definition py_getitem {A} (l : list A) (i : Z) : result A :=
  match py_index (length l) i with
  | Some k => match l !! k with Some x => Ok x | None => Raise IndexError end
  | None => Raise IndexError
  end.

(** [l[n:]]: the start is clamped into [0, len]. *)
Definition py_slice_from {A} (l : list A) (n : Z) : list A :=
  if 0 <=? n then drop (Z.to_nat n) l
  else drop (Z.to_nat (Z.of_nat (length l) + n)) l.

(** [range(n)] and [itertools.product(range(n), range(m))]. *)
Definition range (n : Z) : list Z := seqZ 0 n.

Definition product {A B} (l : list A) (k : list B) : list (A * B) :=
  list_prod l k.

Abbreviation coord := (Z * Z)%type.

Definition coord_eqb (a b : coord) : bool :=
  (a.1 =? b.1) && (a.2 =? b.2).

(** [c in l] on a list of tuples. *)
Definition coord_in (c : coord) (l : list coord) : bool :=
  existsb (coord_eqb c) l.

(** [l.remove(x)]: drops the first occurrence; [None] stands for the
    [ValueError] raised when there is none. *)
Fixpoint list_remove (x : coord) (l : list coord) : option (list coord) :=
  match l with
  | [] => None
  | y :: l' =>
      if coord_eqb y x then Some l'
      else match list_remove x l' with
           | Some r => Some (y :: r)
           | None => None
           end
  end.

(** ** The random module *)

(** The generator behind [random.seed], [random.shuffle] and
    [random.choice] is library code.  It is taken as an interface: a
    state, the state an int seed produces, and [_randbelow(n)], which
    for [n > 0] returns an int in [[0, n)] and the next state. *)
Class RandomSource := {
  rng : Type;
  rng_seed : Z -> rng;
  randbelow : rng -> Z -> Z * rng;
  randbelow_range : forall g n, 0 < n -> 0 <= (randbelow g n).1 < n
}.

(** A small linear congruential generator, used to run the model on
    concrete inputs. *)
Definition lcg_next (g : Z) : Z := (g * 1103515245 + 12345) mod 2147483648.

Definition lcg_randbelow (g n : Z) : Z * Z :=
  let g' := lcg_next g in ((g' / 65536) mod n, g').

Instance lcg : RandomSource := {|
  rng := Z;
  rng_seed := fun z => z mod 2147483648;
  randbelow := lcg_randbelow;
  randbelow_range := fun g n Hn => Z.mod_pos_bound (lcg_next g / 65536) n Hn
|}.

(** ** Agents and the grid world *)

(** A reference to a [DataScientist] object: its index in the store
    [agents], which is also the order of creation. *)
Abbreviation ref := nat.

(** The [env] back-reference of an agent is not stored: the world holds
    one environment, and every agent in it refers to that one. *)
Record DataScientist := {
  id : Z;
  row : Z;
  col : Z;
  language : Lang;
  threshold : float
}.

Record GridWorld := {
  n_agents : Z;
  grid : list (list (option ref));
  agents : list DataScientist;
  empty_cells : list coord
}.

Definition set_grid (g : GridWorld) (x : list (list (option ref))) : GridWorld :=
  {| n_agents := n_agents g; grid := x; agents := agents g;
     empty_cells := empty_cells g |}.

Definition set_agents (g : GridWorld) (x : list DataScientist) : GridWorld :=
  {| n_agents := n_agents g; grid := grid g; agents := x;
     empty_cells := empty_cells g |}.

Definition set_empty_cells (g : GridWorld) (x : list coord) : GridWorld :=
  {| n_agents := n_agents g; grid := grid g; agents := agents g;
     empty_cells := x |}.

Definition coordinates (a : DataScientist) : coord := (row a, col a).

(** The setter's shape test ([type(coords) is tuple and len(coords) == 2])
    always succeeds on a [coord]; its [ValueError] branch has no
    well-typed input here. *)
Definition with_coordinates (a : DataScientist) (c : coord) : DataScientist :=
  {| id := id a; row := c.1; col := c.2; language := language a;
     threshold := threshold a |}.

(** [int(n_agents * RATIO_R_TO_PYTHON)]: the int is converted to a
    float, multiplied, and the product truncated. *)
Definition r_prefix (n : Z) : result Z :=
  match float_of_int n with
  | Ok x => int_of_float (SFmul prec emax x RATIO_R_TO_PYTHON)
  | Raise e => Raise e
  end.

(** The agent created in turn [i] of the loop of [__init__], at the
    shuffled position [c]; [lim] is the value of [r_prefix]. *)
Definition new_agent (lim i : Z) (c : coord) : DataScientist :=
  {| id := i; row := c.1; col := c.2;
     language := if i <? lim then LANG_R else LANG_PYTHON;
     threshold := SIMILARITY_THRESHOLD |}.

(** What the rendering reads of an agent after an iteration. *)
Abbreviation snapshot := (Z * list DataScientist * nat)%type.

Record run_result := {
  converged : bool;
  iteration : Z;
  trace : list snapshot
}.

(** The exceptions the built-in operations used by [__init__] raise. *)
Definition builtin_exn (e : exn) : Prop :=
  e = IndexError \/ e = OverflowError \/ e = ValueError.

(** ** Grid invariants *)

(** The content of the cell at a position, by non-negative indices:
    [None] when the position is outside the nested list. *)
Definition cell (gr : list (list (option ref))) (c : coord)
  : option (option ref) :=
  if (0 <=? c.1) && (0 <=? c.2) then
    match gr !! Z.to_nat c.1 with
    | Some rw => rw !! Z.to_nat c.2
    | None => None
    end
  else None.

Definition in_bounds (n_rows n_cols : Z) (c : coord) : Prop :=
  (0 <= c.1 < n_rows) /\ (0 <= c.2 < n_cols).

(** Agent [i] of the store is positioned at [c]. *)
Definition occupies (g : GridWorld) (i : ref) (c : coord) : Prop :=
  exists a, agents g !! i = Some a /\ coordinates a = c.

(** The consistency of grid, agent store and free list that the
    operations maintain. *)
Record GridInv (n_rows n_cols : Z) (g : GridWorld) : Prop := {
  inv_shape : forall c, in_bounds n_rows n_cols c <-> is_Some (cell (grid g) c);
  inv_free_nodup : NoDup (empty_cells g);
  inv_free_none : forall c, c ∈ empty_cells g <-> cell (grid g) c = Some None;
  inv_agent_cell : forall i a,
    agents g !! i = Some a -> cell (grid g) (coordinates a) = Some (Some i);
  inv_cell_agent : forall c i,
    cell (grid g) c = Some (Some i) -> occupies g i c;
  inv_count :
    Z.of_nat (length (empty_cells g)) + Z.of_nat (length (agents g))
    = n_rows * n_cols
}.

(** The properties of the grid invariant as the specification words
    them: the count; the partition of the positions into free ones, whose
    grid cell is empty and where no agent is, and occupied ones, whose
    grid cell holds the one agent positioned there; the agreement of
    every agent's stored position with the grid; and a free list that
    holds positions of the grid only, each once. *)
Record SpecInv (n_rows n_cols : Z) (g : GridWorld) : Prop := {
  spec_count :
    Z.of_nat (length (empty_cells g)) + Z.of_nat (length (agents g))
    = n_rows * n_cols;
  spec_partition : forall c, in_bounds n_rows n_cols c ->
    (c ∈ empty_cells g /\ cell (grid g) c = Some None
     /\ (forall i, ~ occupies g i c))
    \/ ((c ∉ empty_cells g)
        /\ (exists i, cell (grid g) c = Some (Some i) /\ occupies g i c
                      /\ (forall j, occupies g j c -> j = i)));
  spec_agent_cell : forall i a,
    agents g !! i = Some a -> cell (grid g) (coordinates a) = Some (Some i);
  spec_free_positions : forall c, c ∈ empty_cells g -> in_bounds n_rows n_cols c;
  spec_free_once : NoDup (empty_cells g)
}.

(** Rounding to the nearest integer of [num / den] for [den > 0], ties
    to even (Python's [round]) and ties upwards: the two readings of
    the specification's [round]. *)
Definition round_half_even (num den : Z) : Z :=
  let q := num / den in
  let r := num mod den in
  if 2 * r <? den then q
  else if den <? 2 * r then q + 1
  else if Z.even q then q else q + 1.

Definition round_half_up (num den : Z) : Z :=
  (2 * num + den) / (2 * den).

Definition moved (s : snapshot) : nat := s.2.

Definition is_R (a : DataScientist) : bool := Lang_eqb (language a) LANG_R.

Section Engine.
Context {RS : RandomSource}.

(** The mutable state: the environment object and the state of the
    module-level generator of [random]. *)
Record World := {
  env : GridWorld;
  rnd : rng
}.

Definition M (A : Type) : Type := World -> result A * World.

Definition ret {A} (a : A) : M A := fun w => (Ok a, w).
Definition raise {A} (e : exn) : M A := fun w => (Raise e, w).
Definition bind {A B} (m : M A) (k : A -> M B) : M B :=
  fun w => match m w with
           | (Ok a, w') => k a w'
           | (Raise e, w') => (Raise e, w')
           end.
Definition lift {A} (r : result A) : M A := fun w => (r, w).
Definition get_env : M GridWorld := fun w => (Ok (env w), w).
Definition modify_env (f : GridWorld -> GridWorld) : M unit :=
  fun w => (Ok tt, {| env := f (env w); rnd := rnd w |}).

Notation "x <- m ;; k" := (bind m (fun x => k))
  (at level 100, m at next level, right associativity).
Notation "m ;;; k" := (bind m (fun _ => k))
  (at level 100, right associativity).

Fixpoint for_each {A} (l : list A) (body : A -> M unit) : M unit :=
  match l with
  | [] => ret tt
  | x :: l' => body x ;;; for_each l' body
  end.

(** [[x for x in l if p(x)]] with a test that reads the world. *)
Fixpoint filter_m {A} (p : A -> M bool) (l : list A) : M (list A) :=
  match l with
  | [] => ret []
  | x :: l' =>
      b <- p x ;;
      r <- filter_m p l' ;;
      ret (if b : bool then x :: r else r)
  end.

(** *** random *)

(** [random.seed(a)]: an int seed fixes the state; [None] takes it from
    the operating system's entropy, here the value [os_entropy]. *)
Definition random_seed (os_entropy : Z) (a : option Z) : M unit :=
  fun w => (Ok tt, {| env := env w;
                      rnd := rng_seed (match a with Some z => z | None => os_entropy end) |}).

Definition with_rng {A} (f : rng -> A * rng) : M A :=
  fun w => let (a, g') := f (rnd w) in (Ok a, {| env := env w; rnd := g' |}).

(** [x[i], x[j] = x[j], x[i]]. *)
Definition swap {A} (x : list A) (i j : nat) : list A :=
  match x !! i, x !! j with
  | Some a, Some b => <[j := a]> (<[i := b]> x)
  | _, _ => x
  end.

(** [random.shuffle(x)]:
    [for i in reversed(range(1, len(x))): j = randbelow(i + 1); swap]. *)
Fixpoint shuffle_from {A} (i : nat) (x : list A) (g : rng) : list A * rng :=
  match i with
  | O => (x, g)
  | S i' =>
      let (j, g') := randbelow g (Z.of_nat i + 1) in
      shuffle_from i' (swap x i (Z.to_nat j)) g'
  end.

Definition shuffle {A} (x : list A) (g : rng) : list A * rng :=
  shuffle_from (length x - 1)%nat x g.

Definition random_shuffle {A} (x : list A) : M (list A) :=
  with_rng (shuffle x).

(** [random.choice(seq)]: [IndexError] on an empty sequence, otherwise
    [seq[randbelow(len(seq))]]. *)
Definition random_choice {A} (seq : list A) : M A :=
  match seq with
  | [] => raise IndexError
  | _ =>
      j <- with_rng (fun g => randbelow g (Z.of_nat (length seq))) ;;
      lift (py_getitem seq j)
  end.

(** *** GridWorld *)

Definition grid_get (gr : list (list (option ref))) (r c : Z)
  : result (option ref) :=
  match py_getitem gr r with
  | Ok rw => py_getitem rw c
  | Raise e => Raise e
  end.

(** [gr[r][c] = v] *)
Definition grid_set (gr : list (list (option ref))) (r c : Z) (v : option ref)
  : result (list (list (option ref))) :=
  match py_index (length gr) r with
  | None => Raise IndexError
  | Some i =>
      match gr !! i with
      | None => Raise IndexError
      | Some rw =>
          match py_index (length rw) c with
          | None => Raise IndexError
          | Some j => Ok (<[i := <[j := v]> rw]> gr)
          end
      end
  end.

Definition grid_setitem (r c : Z) (v : option ref) : M unit :=
  g <- get_env ;;
  gr <- lift (grid_set (grid g) r c v) ;;
  modify_env (fun g => set_grid g gr).

Definition deref (r : ref) : M DataScientist :=
  g <- get_env ;;
  match agents g !! r with
  | Some a => ret a
  | None => raise DanglingRef
  end.

(** One turn of the loop [for i in range(self.n_agents)] of [__init__]. *)
Definition place_agent (coords : list coord) (i : Z) : M unit :=
  g <- get_env ;;
  lim <- lift (r_prefix (n_agents g)) ;;
  c <- lift (py_getitem coords i) ;;
  let agent := new_agent lim i c in
  grid_setitem (row agent) (col agent) (Some (length (agents g))) ;;;
  modify_env (fun g => set_agents g (agents g ++ [agent])).

Definition GridWorld_init_body (os_entropy n_rows n_cols n_empty : Z)
    (seed : option Z) : M unit :=
  modify_env (fun _ =>
    {| n_agents := N_CELLS - n_empty;
       grid := replicate (length (range n_rows))
                 (replicate (length (range n_cols)) None);
       agents := [];
       empty_cells := [] |}) ;;;
  g <- get_env ;;
  let coords := product (range n_rows) (range n_cols) in
  random_seed os_entropy seed ;;;
  coords <- random_shuffle coords ;;
  for_each (range (n_agents g)) (place_agent coords) ;;;
  modify_env (fun g => set_empty_cells g (py_slice_from coords (n_agents g))).

Definition blank : GridWorld :=
  {| n_agents := 0; grid := []; agents := []; empty_cells := [] |}.

(** [GridWorld(n_rows, n_cols, n_empty, random_seed)]: the new object, or
    the exception that escaped [__init__]; either way the module-level
    generator keeps the state the call left it in. *)
Definition GridWorld_init (os_entropy n_rows n_cols n_empty : Z)
    (seed : option Z) (g0 : rng) : result GridWorld * rng :=
  match GridWorld_init_body os_entropy n_rows n_cols n_empty seed
          {| env := blank; rnd := g0 |} with
  | (Ok _, w) => (Ok (env w), rnd w)
  | (Raise e, w) => (Raise e, rnd w)
  end.

Definition neighbour_coords (row col : Z) : list coord :=
  [ (row - 1, col - 1); (row - 1, col); (row - 1, col + 1);
    (row, col - 1); (row, col + 1);
    (row + 1, col - 1); (row + 1, col); (row + 1, col + 1) ].

Definition feasible_test (g : GridWorld) (c : coord) : bool :=
  (0 <=? c.1) && (0 <=? c.2) && (c.1 <? N_ROWS) && (c.2 <? N_COLS)
  && negb (coord_in c (empty_cells g)).

(** [[self.grid[c[0]][c[1]] for c in coords if ...]] *)
Fixpoint feasible (g : GridWorld) (cs : list coord) : result (list (option ref)) :=
  match cs with
  | [] => Ok []
  | c :: cs' =>
      if feasible_test g c then
        match grid_get (grid g) c.1 c.2 with
        | Raise e => Raise e
        | Ok v => match feasible g cs' with
                  | Raise e => Raise e
                  | Ok vs => Ok (v :: vs)
                  end
        end
      else feasible g cs'
  end.

Definition get_neighbours (g : GridWorld) (row col : Z)
  : result (list (option ref)) :=
  feasible g (neighbour_coords row col).

Definition get_random_empty_cell : M coord :=
  g <- get_env ;;
  random_choice (empty_cells g).

Definition set_coordinates (agent : ref) (c : coord) : M unit :=
  a <- deref agent ;;
  modify_env (fun g => set_agents g (<[agent := with_coordinates a c]> (agents g))).

Definition empty_cells_remove (c : coord) : M unit :=
  g <- get_env ;;
  match list_remove c (empty_cells g) with
  | Some l => modify_env (fun g => set_empty_cells g l)
  | None => raise ValueError
  end.

Definition empty_cells_append (c : coord) : M unit :=
  modify_env (fun g => set_empty_cells g (empty_cells g ++ [c])).

Definition relocate (agent : ref) : M unit :=
  new_loc <- get_random_empty_cell ;;
  a <- deref agent ;;
  let old_loc := coordinates a in
  grid_setitem new_loc.1 new_loc.2 (Some agent) ;;;
  grid_setitem old_loc.1 old_loc.2 None ;;;
  set_coordinates agent (new_loc.1, new_loc.2) ;;;
  empty_cells_remove new_loc ;;;
  empty_cells_append old_loc.

(** *** DataScientist.is_unsatified_with_neighbours *)

(** The test [n.language == self.language] on one element of the
    neighbour list; [None] has no attribute [language]. *)
Definition same_language (me : DataScientist) (n : option ref) : M bool :=
  match n with
  | None => raise AttributeError
  | Some r => a <- deref r ;; ret (Lang_eqb (language a) (language me))
  end.

Definition is_unsatified_with_neighbours (self : ref) : M bool :=
  me <- deref self ;;
  g <- get_env ;;
  neighbours <- lift (get_neighbours g (row me) (col me)) ;;
  similar <- filter_m (same_language me) neighbours ;;
  let n_similar := length similar in
  if (length neighbours =? 0)%nat then ret false
  else
    x <- lift (float_of_int (Z.of_nat n_similar)) ;;
    y <- lift (float_of_int (Z.of_nat (length neighbours))) ;;
    q <- lift (float_truediv x y) ;;
    ret (float_lt q (threshold me)).

(** *** Model.run *)

(** The scan [for agent in self.env.agents: if ...: to_move.append(agent)]. *)
Definition scan : M (list ref) :=
  g <- get_env ;;
  filter_m is_unsatified_with_neighbours (seq 0 (length (agents g))).

(** The report of every 20th iteration prints
    [len(to_move) / len(self.env.agents)]; the printed text is not
    modelled, the division by an empty agent list is. *)
Definition report (iter : Z) (n_moved : nat) : M unit :=
  if iter mod 20 =? 0 then
    g <- get_env ;;
    if (length (agents g) =? 0)%nat then raise ZeroDivisionError else ret tt
  else ret tt.

(** The loop of [Model.run].  [fuel] bounds the number of turns the
    model may take; [None] means the fuel ran out before the loop
    condition became false.  After each turn the display is redrawn
    from [self.env.agents]: that reading is recorded in [trace],
    together with [iteration] and [len(to_move)]. *)
Fixpoint run_loop (fuel : nat) (max_iter : Z) (conv : bool) (iter : Z)
    (tr : list snapshot) : M (option run_result) :=
  if negb conv && (iter <? max_iter) then
    match fuel with
    | O => ret None
    | S fuel' =>
        let conv := true in
        let iter := iter + 1 in
        to_move <- scan ;;
        let conv := if (0 <? length to_move)%nat then false else conv in
        for_each to_move relocate ;;;
        g <- get_env ;;
        report iter (length to_move) ;;;
        run_loop fuel' max_iter conv iter
          (tr ++ [(iter, agents g, length to_move)])
    end
  else ret (Some {| converged := conv; iteration := iter; trace := tr |}).

Definition run (fuel : nat) (max_iter : Z) : M (option run_result) :=
  run_loop fuel max_iter false 0 [].

(** [env = GridWorld(...); Model(env, max_iter).run()], and what was
    drawn before the first iteration. *)
Definition simulate (fuel : nat) (os_entropy n_rows n_cols n_empty : Z)
    (seed : option Z) (max_iter : Z) (g0 : rng)
  : result (list DataScientist * option run_result) :=
  match GridWorld_init os_entropy n_rows n_cols n_empty seed g0 with
  | (Raise e, _) => Raise e
  | (Ok e0, g1) =>
      match run fuel max_iter {| env := e0; rnd := g1 |} with
      | (Ok r, _) => Ok (agents e0, r)
      | (Raise e, _) => Raise e
      end
  end.

(** The states the program reaches from [GridWorld(n_rows, n_cols,
    n_empty, seed)]: the state after construction, and the state after
    any call of [relocate] on an agent of the store, whether the call
    returns or raises. *)
Inductive reachable (n_rows n_cols n_empty : Z) : World -> Prop :=
  | reach_init os seed g0 g g1 :
      GridWorld_init os n_rows n_cols n_empty seed g0 = (Ok g, g1) ->
      reachable n_rows n_cols n_empty {| env := g; rnd := g1 |}
  | reach_relocate w agent r w' :
      reachable n_rows n_cols n_empty w ->
      is_Some (agents (env w) !! agent) ->
      relocate agent w = (r, w') ->
      reachable n_rows n_cols n_empty w'.

(** What a returning call [relocate agent] does to the world, for the
    agent object [a] found at [agent] and the cell [new_loc] drawn. *)
Record RelocPost (agent : ref) (a : DataScientist) (new_loc : coord)
    (w w' : World) : Prop := {
  rp_new_free : new_loc ∈ empty_cells (env w);
  rp_cells : forall c,
    cell (grid (env w')) c
    = if coord_eqb c (coordinates a) then Some None
      else if coord_eqb c new_loc then Some (Some agent)
      else cell (grid (env w)) c;
  rp_agents :
    agents (env w') = <[agent := with_coordinates a new_loc]> (agents (env w));
  rp_free : exists l',
    list_remove new_loc (empty_cells (env w)) = Some l'
    /\ empty_cells (env w') = l' ++ [coordinates a];
  rp_n_agents : n_agents (env w') = n_agents (env w)
}.

(** The agents [__init__] creates for the shuffled positions [cs],
    numbered from [k] on. *)
Fixpoint make_agents (lim : Z) (k : nat) (cs : list coord) : list DataScientist :=
  match cs with
  | [] => []
  | c :: cs' => new_agent lim (Z.of_nat k) c :: make_agents lim (S k) cs'
  end.

(** All positions of the grid in the order [random.shuffle] leaves them
    in after [random.seed(seed)]. *)
Definition shuffled_coords (os_entropy n_rows n_cols : Z) (seed : option Z)
  : list coord :=
  (shuffle (product (range n_rows) (range n_cols))
     (rng_seed (match seed with Some z => z | None => os_entropy end))).1.

(** ** Vocabulary of the statements on the satisfaction test and the run *)

(** [float(n)] of a small count. *)
Definition fl (n : nat) : float := binary_normalize prec emax (Z.of_nat n) 0 false.

(** A neighbour entry that is an agent with the language of [me]. *)
Definition is_similar (g : GridWorld) (me : DataScientist) (n : option ref) : bool :=
  match n with
  | Some r => match agents g !! r with
              | Some a => Lang_eqb (language a) (language me)
              | None => false
              end
  | None => false
  end.

(** Every entry of a neighbour list is an agent of the store. *)
Definition valid_neighbours (g : GridWorld) (ns : list (option ref)) : bool :=
  forallb (fun n => match n with
                    | Some r => match agents g !! r with
                                | Some _ => true
                                | None => false
                                end
                    | None => false
                    end) ns.

(** The verdict on a neighbour list: never unsatisfied without
    neighbours, otherwise the share of similar neighbours compared with
    the threshold, in float arithmetic. *)
Definition unsatisfied_verdict (g : GridWorld) (me : DataScientist)
    (ns : list (option ref)) : bool :=
  match ns with
  | [] => false
  | _ => float_lt (SFdiv prec emax (fl (length (List.filter (is_similar g me) ns)))
                     (fl (length ns)))
           (threshold me)
  end.


(** The labelling in the words of the specification, for a rounding
    [rnd] of [n_agents * 1/2]: a prefix of exactly that many agents has
    the first label ([LANG_R]), all the others the second. *)
Definition labels_as_specified (rnd : Z -> Z -> Z) (g : GridWorld) : Prop :=
  map language (agents g)
  = replicate (Z.to_nat (rnd (n_agents g) 2)) LANG_R
    ++ replicate (length (agents g) - Z.to_nat (rnd (n_agents g) 2)) LANG_PYTHON.


(** [main]: the grid of the module's dimensions with
    [int(PERCENT_EMPTY * N_CELLS)] empty cells and seed 42, run for at
    most [MAX_ITER] iterations. *)
Definition main_n_empty : result Z :=
  match float_of_int N_CELLS with
  | Ok x => int_of_float (SFmul prec emax PERCENT_EMPTY x)
  | Raise e => Raise e
  end.


(** ** Vocabulary of the further properties *)

(** What [relocate] never touches of an agent. *)
Definition static (a : DataScientist) : Z * Lang * float :=
  (id a, language a, threshold a).

(** Every execution of [m] relates the world before to the world after
    by [P], whether [m] returns or raises. *)
Definition preserves {A} (P : World -> World -> Prop) (m : M A) : Prop :=
  forall w r w', m w = (r, w') -> P w w'.

Definition same_world (w w' : World) : Prop := w' = w.

Definition same_static (w w' : World) : Prop :=
  map static (agents (env w')) = map static (agents (env w)).

(** A failed operation may have written to the grid and drawn from the
    generator, but agents and free list are as before. *)
Definition same_agents_and_free (w w' : World) : Prop :=
  agents (env w') = agents (env w)
  /\ empty_cells (env w') = empty_cells (env w).

(** No agent of the store is unsatisfied. *)
Definition all_satisfied (w : World) : Prop :=
  forall r, (r < length (agents (env w)))%nat ->
            is_unsatified_with_neighbours r w = (Ok false, w).

(** The agents held by the cells at the positions [cs], in the order of
    [cs]; positions outside the grid and empty cells give nothing. *)
Fixpoint occupants (gr : list (list (option ref))) (cs : list coord)
  : list (option ref) :=
  match cs with
  | [] => []
  | c :: cs' =>
      match cell gr c with
      | Some (Some i) => Some i :: occupants gr cs'
      | _ => occupants gr cs'
      end
  end.

(** A threshold that is zero, negative or not a number. *)
Definition not_positive (t : float) : Prop :=
  match t with
  | S754_nan | S754_zero _ | S754_finite true _ _ | S754_infinity true => True
  | _ => False
  end.

(** The number of positions of the grid built for [n_rows] and
    [n_cols]: [range] of a negative int is empty. *)
Definition n_positions (n_rows n_cols : Z) : Z := Z.max 0 n_rows * Z.max 0 n_cols.

(** The agents (as references) whose position differs between two
    readings of the store. *)
Definition changed_at (old new : list DataScientist) (r : ref) : bool :=
  match old !! r, new !! r with
  | Some a, Some b => negb (coord_eqb (coordinates a) (coordinates b))
  | _, _ => false
  end.

Definition changed (old new : list DataScientist) : list ref :=
  List.filter (changed_at old new) (seq 0 (length old)).

(** The agents as they were before iteration [k + 1] of a trace: the
    initial ones, or those recorded by iteration [k]. *)
Definition prev_agents (init : list DataScientist) (tr : list snapshot)
    (k : nat) : list DataScientist :=
  match k with
  | O => init
  | S k' => match tr !! k' with
            | Some s => s.1.2
            | None => []
            end
  end.




End Engine.

(** ** Concrete runs *)

(** The world after [GridWorld(n_rows, n_cols, n_empty, random_seed=42)]
    with the generator [lcg]; the blank object when construction raises. *)
Definition world_of (n_rows n_cols n_empty : Z) : World (RS := lcg) :=
  match GridWorld_init (RS := lcg) 0 n_rows n_cols n_empty (Some 42) 0 with
  | (Ok g, g1) => {| env := g; rnd := g1 |}
  | (Raise _, g1) => {| env := blank; rnd := g1 |}
  end.

(** One agent on a 2 x 2 grid, a full 2 x 2 grid, and five agents on a
    3 x 3 grid. *)
Definition small_world : World (RS := lcg) := world_of 2 2 2499.
Definition full_world : World (RS := lcg) := world_of 2 2 2496.
Definition world_3x3 : World (RS := lcg) := world_of 3 3 2495.

(** The agent object behind a reference of a world; the reference is
    taken to be in the store. *)
Definition agent_of (w : World (RS := lcg)) (r : ref) : DataScientist :=
  match agents (env w) !! r with
  | Some a => a
  | None => new_agent 0 0 (0, 0)
  end.

(** Twenty agents on the 50 x 50 grid. *)
Definition busy_world : World (RS := lcg) := world_of 50 50 2480.

(** The result of a run that is taken to return. *)
Definition returned (r : result (option run_result)) : run_result :=
  match r with
  | Ok (Some res) => res
  | _ => {| converged := false; iteration := 0; trace := [] |}
  end.

(** What a run of at most five iterations on the world of twenty agents
    returns. *)
Definition busy_result : run_result :=
  returned (run (RS := lcg) 5 5 busy_world).1.

(** The 3 x 3 world with agents constructed with [threshold=0.0]. *)
Definition without_threshold (a : DataScientist) : DataScientist :=
  {| id := id a; row := row a; col := col a; language := language a;
     threshold := S754_zero false |}.

Definition numb_world : World (RS := lcg) :=
  {| env := set_agents (env world_3x3)
              (map without_threshold (agents (env world_3x3)));
     rnd := rnd world_3x3 |}.

(** * Rendering *)

Definition WINDOWWIDTH : Z := 640.
Definition WINDOWHEIGHT : Z := 640.

(** An int that a double holds exactly, where a float is computed. *)
Definition lit (n : Z) : float := binary_normalize prec emax n 0 false.

(** [WINDOWWIDTH / N_COLS] and [WINDOWHEIGHT / N_ROWS]: the true
    division of two small ints is the division of their doubles. *)
Definition CELLWIDTH : float := SFdiv prec emax (lit WINDOWWIDTH) (lit N_COLS).
Definition CELLHEIGHT : float := SFdiv prec emax (lit WINDOWHEIGHT) (lit N_ROWS).

Abbreviation colour := (Z * Z * Z)%type.

(** [RED] is assigned twice in the module; the second value stands. *)
Definition BLACK : colour := (0, 0, 0).
Definition BRIGHTRED : colour := (255, 0, 0).
Definition RED : colour := (155, 0, 0).
Definition BRIGHTBLUE : colour := (0, 0, 255).
Definition BLUE : colour := (0, 0, 155).
Definition BGCOLOR : colour := BLACK.

Definition AGENT_COLORS (l : Lang) : colour :=
  match l with LANG_PYTHON => BLUE | LANG_R => RED end.

Definition AGENT_INNER_COLORS (l : Lang) : colour :=
  match l with LANG_PYTHON => BRIGHTBLUE | LANG_R => BRIGHTRED end.

(** The arguments [left, top, width, height] of a [pygame.Rect]. *)
Abbreviation rect_args := (float * float * float * float)%type.

(** What is asked of the display surface: [DISPLAYSURF.fill(c)] and
    [pygame.draw.rect(DISPLAYSURF, c, pygame.Rect(...))].  What pygame
    does with a call is not modelled. *)
Inductive draw_call :=
| Fill (c : colour)
| DrawRect (c : colour) (r : rect_args).

(** [n * x] for an int and a float: the int is converted first. *)
Definition int_mul_float (n : Z) (x : float) : result float :=
  match float_of_int n with
  | Ok y => Ok (SFmul prec emax y x)
  | Raise e => Raise e
  end.

(** The body of the loop of [draw_agents] for one agent. *)
Definition agent_calls (a : DataScientist) : result (list draw_call) :=
  match int_mul_float (col a) CELLWIDTH with
  | Raise e => Raise e
  | Ok a_left =>
      match int_mul_float (row a) CELLHEIGHT with
      | Raise e => Raise e
      | Ok a_top =>
          Ok [DrawRect (AGENT_COLORS (language a))
                (a_left, a_top, CELLWIDTH, CELLHEIGHT);
              DrawRect (AGENT_INNER_COLORS (language a))
                (SFadd prec emax a_left (lit 4), SFadd prec emax a_top (lit 4),
                 SFsub prec emax CELLWIDTH (lit 8),
                 SFsub prec emax CELLHEIGHT (lit 8))]
      end
  end.

(** [draw_agents]: the calls made, and whether the loop came to its end;
    the calls made before an exception have been made. *)
Fixpoint draw_agents (l : list DataScientist) : result unit * list draw_call :=
  match l with
  | [] => (Ok tt, [])
  | a :: l' =>
      match agent_calls a with
      | Raise e => (Raise e, [])
      | Ok cs => let (r, rest) := draw_agents l' in (r, cs ++ rest)
      end
  end.

Definition draw_environment (g : GridWorld) : result unit * list draw_call :=
  let (r, cs) := draw_agents (agents g) in (r, Fill BGCOLOR :: cs).

(** ** Vocabulary of the statements on rendering *)

(** The two rectangles of an agent whose row and column are small. *)
Definition outer_rect (a : DataScientist) : rect_args :=
  (SFmul prec emax (lit (col a)) CELLWIDTH,
   SFmul prec emax (lit (row a)) CELLHEIGHT, CELLWIDTH, CELLHEIGHT).

Definition inner_rect (a : DataScientist) : rect_args :=
  (SFadd prec emax (SFmul prec emax (lit (col a)) CELLWIDTH) (lit 4),
   SFadd prec emax (SFmul prec emax (lit (row a)) CELLHEIGHT) (lit 4),
   SFsub prec emax CELLWIDTH (lit 8), SFsub prec emax CELLHEIGHT (lit 8)).

Definition rects_of (a : DataScientist) : list draw_call :=
  [DrawRect (AGENT_COLORS (language a)) (outer_rect a);
   DrawRect (AGENT_INNER_COLORS (language a)) (inner_rect a)].

(** A finite float cut to a whole number. *)
Definition trunc (x : float) : Z :=
  match int_of_float x with
  | Ok z => z
  | Raise _ => 0
  end.

(** A rectangle in whole pixels: left, top, width, height. *)
Abbreviation pixel_rect := (Z * Z * Z * Z)%type.

Definition pixels (r : rect_args) : pixel_rect :=
  let '(l, t, w, h) := r in (trunc l, trunc t, trunc w, trunc h).

Definition window : pixel_rect := (0, 0, WINDOWWIDTH, WINDOWHEIGHT).

Definition inside (p q : pixel_rect) : Prop :=
  let '(x, y, w, h) := p in
  let '(x', y', w', h') := q in
  x' <= x /\ x + w <= x' + w' /\ y' <= y /\ y + h <= y' + h'.

(** Two rectangles without a common pixel. *)
Definition apart (p q : pixel_rect) : Prop :=
  let '(x, y, w, h) := p in
  let '(x', y', w', h') := q in
  x + w <= x' \/ x' + w' <= x \/ y + h <= y' \/ y' + h' <= y.

(** * Start-up: waiting for a key *)

Definition K_ESCAPE : Z := 27.

(** What the event queue hands to one call of [check_for_key_press]:
    the number of [QUIT] events returned by the first [event.get], and
    the key codes of the [KEYUP] events returned by the second. *)
Record poll := {
  quit_events : nat;
  key_up_events : list Z
}.

(** [terminate] leaves the program ([sys.exit()]); otherwise
    [check_for_key_press] returns [None] or a key code. *)
Inductive key_outcome :=
| Terminated
| Returned (k : option Z).

Definition check_for_key_press (p : poll) : key_outcome :=
  if (0 <? quit_events p)%nat then Terminated
  else
    match key_up_events p with
    | [] => Returned None
    | k :: _ => if k =? K_ESCAPE then Terminated else Returned (Some k)
    end.

(** Python's truth value of the result. *)
Definition truthy (k : option Z) : bool :=
  match k with
  | None => false
  | Some z => negb (z =? 0)
  end.

(** How the wait ends: the program has exited, the method has returned
    (the simulation starts), an exception of the image loading has
    escaped, or the polls at hand are used up and the loop goes on. *)
Inductive wait_outcome :=
| Exited
| Started
| LoadFailed
| Waiting.

(** The loop [while True: if self.check_for_key_press(): ...; return]. *)
Fixpoint wait_loop (ps : list poll) : wait_outcome :=
  match ps with
  | [] => Waiting
  | p :: ps' =>
      match check_for_key_press p with
      | Terminated => Exited
      | Returned k => if truthy k then Started else wait_loop ps'
      end
  end.

(** [wait_for_user_to_press_key]: the two images are loaded, the queue
    is polled once with the result thrown away, the splash screen is
    drawn, and the loop waits.  [images] tells whether both image files
    load. *)
Definition wait_for_user_to_press_key (images : bool) (ps : list poll)
  : wait_outcome :=
  if images then
    match ps with
    | [] => Waiting
    | p :: ps' =>
        match check_for_key_press p with
        | Terminated => Exited
        | Returned _ => wait_loop ps'
        end
    end
  else LoadFailed.

(** ** Vocabulary of the statements on the wait *)

(** A poll that ends the program: a [QUIT] event, or Escape as the
    first key released. *)
Definition quits (p : poll) : bool :=
  (0 <? quit_events p)%nat
  || match key_up_events p with
     | k :: _ => k =? K_ESCAPE
     | [] => false
     end.

(** A poll that starts the simulation: no [QUIT] event, and the first
    key released is neither Escape nor the key of code 0. *)
Definition starts (p : poll) : bool :=
  (quit_events p =? 0)%nat
  && match key_up_events p with
     | k :: _ => negb (k =? K_ESCAPE) && negb (k =? 0)
     | [] => false
     end.

(** A poll that changes nothing: no [QUIT] event, and no key released
    or first the key of code 0. *)
Definition idle (p : poll) : bool :=
  (quit_events p =? 0)%nat
  && match key_up_events p with
     | k :: _ => k =? 0
     | [] => true
     end.

(** The first poll of [ps] that is not idle is poll [n]. *)
Definition first_busy (ps : list poll) (n : nat) (p : poll) : Prop :=
  ps !! n = Some p /\ idle p = false
  /\ forall m q, (m < n)%nat -> ps !! m = Some q -> idle q = true.

(** * Properties *)

Section Properties.
Context {RS : RandomSource}.

(** ** Lists *)

Lemma py_index_nonneg (len : nat) (i : Z) :
  0 <= i < Z.of_nat len -> py_index len i = Some (Z.to_nat i).
Proof.
  intros [H0 H1]. unfold py_index.
  apply Z.leb_le in H0. apply Z.ltb_lt in H1. rewrite H0, H1. reflexivity.
Qed.

Lemma py_index_above (len : nat) (i : Z) :
  Z.of_nat len <= i -> py_index len i = None.
Proof.
  intros H. unfold py_index.
  assert (H1 : (i <? Z.of_nat len) = false) by (apply Z.ltb_ge; lia).
  assert (H2 : (i <? 0) = false) by (apply Z.ltb_ge; lia).
  rewrite H1, H2, !andb_false_r. reflexivity.
Qed.

Lemma py_getitem_lookup {A} (l : list A) (k : nat) (x : A) :
  l !! k = Some x -> py_getitem l (Z.of_nat k) = Ok x.
Proof.
  intros H. unfold py_getitem.
  rewrite py_index_nonneg, Nat2Z.id, H; [reflexivity|].
  apply lookup_lt_Some in H. lia.
Qed.

Lemma py_getitem_above {A} (l : list A) (i : Z) :
  Z.of_nat (length l) <= i -> py_getitem l i = Raise IndexError.
Proof. intros H. unfold py_getitem. rewrite py_index_above; auto. Qed.

Lemma coord_eqb_eq (a b : coord) : coord_eqb a b = true <-> a = b.
Proof.
  destruct a as [a1 a2], b as [b1 b2]. unfold coord_eqb. simpl.
  rewrite andb_true_iff, !Z.eqb_eq. split.
  - intros [-> ->]. reflexivity.
  - intros [= -> ->]. auto.
Qed.

Lemma coord_eqb_neq (a b : coord) : coord_eqb a b = false <-> a <> b.
Proof.
  rewrite <- coord_eqb_eq. destruct (coord_eqb a b); split; congruence.
Qed.

Lemma coord_in_elem (c : coord) (l : list coord) :
  coord_in c l = true <-> c ∈ l.
Proof.
  unfold coord_in. rewrite existsb_exists, list_elem_of_In. split.
  - intros (x & Hx & Heq). apply coord_eqb_eq in Heq. subst. exact Hx.
  - intros H. exists c. split; [exact H | apply coord_eqb_eq; reflexivity].
Qed.

Lemma list_remove_elem (x : coord) (l : list coord) :
  x ∈ l -> exists l', list_remove x l = Some l'.
Proof.
  induction l as [|y l IH]; intros H.
  - inversion H.
  - simpl. destruct (coord_eqb y x) eqn:E; [eauto|].
    apply coord_eqb_neq in E. apply elem_of_cons in H as [H|H]; [congruence|].
    destruct (IH H) as [l' ->]. eauto.
Qed.

Lemma list_remove_length (x : coord) (l l' : list coord) :
  list_remove x l = Some l' -> length l = S (length l').
Proof.
  revert l'. induction l as [|y l IH]; intros l' H; simpl in H; [discriminate|].
  destruct (coord_eqb y x); [injection H as <-; reflexivity|].
  destruct (list_remove x l) as [r|]; [|discriminate].
  injection H as <-. simpl. f_equal. apply IH. reflexivity.
Qed.

Lemma list_remove_NoDup (x : coord) (l l' : list coord) :
  list_remove x l = Some l' -> NoDup l ->
  NoDup l' /\ (forall y, y ∈ l' <-> y ∈ l /\ y <> x).
Proof.
  revert l'. induction l as [|y l IH]; intros l' H Hnd; simpl in H; [discriminate|].
  apply NoDup_cons in Hnd as [Hy Hnd].
  destruct (coord_eqb y x) eqn:E.
  - apply coord_eqb_eq in E. subst y. injection H as <-. split; [exact Hnd|].
    intros z. rewrite elem_of_cons. split.
    + intros Hz. split; [auto|]. intros ->. contradiction.
    + intros [[->|Hz] Hne]; [congruence | exact Hz].
  - apply coord_eqb_neq in E.
    destruct (list_remove x l) as [r|]; [|discriminate].
    injection H as <-. destruct (IH r eq_refl Hnd) as [Hr Hiff]. split.
    + apply NoDup_cons. split; [|exact Hr]. rewrite Hiff. tauto.
    + intros z. rewrite !elem_of_cons, Hiff. split.
      * intros [->|[Hz Hne]]; auto.
      * intros [[->|Hz] Hne]; auto.
Qed.

Lemma swap_length {A} (x : list A) (i j : nat) : length (swap x i j) = length x.
Proof.
  unfold swap. destruct (x !! i), (x !! j); rewrite ?length_insert; reflexivity.
Qed.

Lemma swap_Permutation {A} (x : list A) (i j : nat) : swap x i j ≡ₚ x.
Proof.
  unfold swap. destruct (x !! i) as [a|] eqn:Hi; [|reflexivity].
  destruct (x !! j) as [b|] eqn:Hj; [|reflexivity].
  apply Permutation_inj. split; [rewrite !length_insert; reflexivity|].
  exists (fun k => if decide (k = j) then i else if decide (k = i) then j else k).
  split.
  - intros k1 k2. repeat case_decide; intros; subst; congruence.
  - intros k. pose proof (lookup_lt_Some _ _ _ Hi). pose proof (lookup_lt_Some _ _ _ Hj).
    repeat case_decide; subst.
    + rewrite list_lookup_insert_eq by (rewrite length_insert; lia). congruence.
    + rewrite list_lookup_insert_ne by congruence.
      rewrite list_lookup_insert_eq by lia. congruence.
    + rewrite !list_lookup_insert_ne by congruence. reflexivity.
Qed.

Lemma shuffle_from_Permutation {A} (i : nat) (x : list A) (g : rng) :
  (shuffle_from i x g).1 ≡ₚ x.
Proof.
  revert x g. induction i as [|i IH]; intros x g; simpl; [reflexivity|].
  destruct (randbelow g _) as [j g']. rewrite IH. apply swap_Permutation.
Qed.

Lemma shuffle_Permutation {A} (x : list A) (g : rng) : (shuffle x g).1 ≡ₚ x.
Proof. apply shuffle_from_Permutation. Qed.

Lemma range_length (n : Z) : length (range n) = Z.to_nat n.
Proof. apply length_seqZ. Qed.

Lemma product_elem (n m : Z) (c : coord) :
  c ∈ product (range n) (range m) <-> in_bounds n m c.
Proof.
  destruct c as [r k]. unfold product, range, in_bounds.
  rewrite list_elem_of_In. etrans; [apply in_prod_iff|].
  rewrite <- !list_elem_of_In, !elem_of_seqZ. simpl. lia.
Qed.

Lemma list_prod_NoDup {A B} (l : list A) (k : list B) :
  NoDup l -> NoDup k -> NoDup (list_prod l k).
Proof.
  intros Hl Hk. induction Hl as [|a l Ha Hl IH]; simpl; [constructor|].
  apply NoDup_app. split; [|split; [|exact IH]].
  - apply NoDup_ListNoDup, Finite.Injective_map_NoDup.
    + intros x y [= ->]. reflexivity.
    + apply NoDup_ListNoDup, Hk.
  - intros [x y] Hin Hin'. apply list_elem_of_In, in_map_iff in Hin as (z & [= -> ->] & _).
    apply list_elem_of_In, in_prod_iff in Hin' as [Hin' _].
    apply Ha, list_elem_of_In, Hin'.
Qed.

Lemma product_NoDup (n m : Z) : NoDup (product (range n) (range m)).
Proof. apply list_prod_NoDup; apply NoDup_seqZ. Qed.

Lemma product_length (n m : Z) :
  length (product (range n) (range m)) = (Z.to_nat n * Z.to_nat m)%nat.
Proof. unfold product. rewrite length_prod, !range_length. reflexivity. Qed.

(** ** Grid cells *)

Lemma cell_Some_inv (gr : list (list (option ref))) (c : coord) (v : option ref) :
  cell gr c = Some v ->
  0 <= c.1 /\ 0 <= c.2 /\
  exists rw, gr !! Z.to_nat c.1 = Some rw /\ rw !! Z.to_nat c.2 = Some v.
Proof.
  unfold cell. destruct (0 <=? c.1) eqn:E1; [|discriminate].
  destruct (0 <=? c.2) eqn:E2; [|discriminate]. simpl.
  apply Z.leb_le in E1, E2.
  destruct (gr !! Z.to_nat c.1) as [rw|] eqn:Hrw; [|discriminate].
  intros H. eauto.
Qed.

Lemma cell_intro (gr : list (list (option ref))) (c : coord) rw :
  0 <= c.1 -> 0 <= c.2 -> gr !! Z.to_nat c.1 = Some rw ->
  cell gr c = rw !! Z.to_nat c.2.
Proof.
  intros H1 H2 Hrw. unfold cell.
  apply Z.leb_le in H1, H2. rewrite H1, H2, Hrw. reflexivity.
Qed.

Lemma grid_get_cell (gr : list (list (option ref))) (c : coord) (v : option ref) :
  cell gr c = Some v -> grid_get gr c.1 c.2 = Ok v.
Proof.
  intros H. apply cell_Some_inv in H as (H1 & H2 & rw & Hrw & Hv).
  unfold grid_get.
  rewrite <- (Z2Nat.id c.1) by exact H1. rewrite (py_getitem_lookup _ _ _ Hrw).
  rewrite <- (Z2Nat.id c.2) by exact H2. apply py_getitem_lookup, Hv.
Qed.

Lemma grid_set_cell (gr : list (list (option ref))) (c : coord) (v : option ref) :
  is_Some (cell gr c) ->
  exists gr', grid_set gr c.1 c.2 v = Ok gr' /\
    forall c', cell gr' c' = if coord_eqb c' c then Some v else cell gr c'.
Proof.
  intros [v0 H]. apply cell_Some_inv in H as (H1 & H2 & rw & Hrw & Hv).
  pose proof (lookup_lt_Some _ _ _ Hrw) as Hlt1.
  pose proof (lookup_lt_Some _ _ _ Hv) as Hlt2.
  unfold grid_set.
  rewrite py_index_nonneg by lia. rewrite Hrw. rewrite py_index_nonneg by lia.
  eexists. split; [reflexivity|]. intros c'.
  destruct (coord_eqb c' c) eqn:E.
  - apply coord_eqb_eq in E. subst c'.
    rewrite (cell_intro _ _ (<[Z.to_nat c.2 := v]> rw)); auto.
    + apply list_lookup_insert_eq. exact Hlt2.
    + apply list_lookup_insert_eq. exact Hlt1.
  - apply coord_eqb_neq in E. unfold cell.
    destruct (0 <=? c'.1) eqn:E1; [|reflexivity].
    destruct (0 <=? c'.2) eqn:E2; [|reflexivity]. simpl.
    apply Z.leb_le in E1, E2.
    destruct (decide (Z.to_nat c'.1 = Z.to_nat c.1)) as [Heq|Hne].
    + rewrite Heq, list_lookup_insert_eq, Hrw by exact Hlt1.
      apply list_lookup_insert_ne. intros Heq2. apply E.
      destruct c, c'. simpl in *. f_equal; lia.
    + rewrite list_lookup_insert_ne by congruence. reflexivity.
Qed.

Lemma cell_replicate (n m : Z) (c : coord) :
  cell (replicate (length (range n)) (replicate (length (range m)) None)) c
  = if (0 <=? c.1) && (c.1 <? n) && (0 <=? c.2) && (c.2 <? m)
    then Some None else None.
Proof.
  unfold cell. rewrite !range_length.
  destruct (0 <=? c.1) eqn:E1; [|reflexivity].
  destruct (0 <=? c.2) eqn:E2; simpl.
  - apply Z.leb_le in E1, E2. destruct (c.1 <? n) eqn:E3; simpl.
    + apply Z.ltb_lt in E3.
      rewrite (proj2 (lookup_replicate _ _ _ _)) by (split; [reflexivity|lia]).
      destruct (c.2 <? m) eqn:E4.
      * apply Z.ltb_lt in E4. apply lookup_replicate. split; [reflexivity|lia].
      * apply Z.ltb_ge in E4. apply lookup_ge_None. rewrite length_replicate. lia.
    + apply Z.ltb_ge in E3. rewrite (proj2 (lookup_ge_None _ _)); [reflexivity|].
      rewrite length_replicate. lia.
  - rewrite andb_false_r. reflexivity.
Qed.

(** ** Stepping through the monad *)

Lemma bind_ok {A B} (m : M A) (k : A -> M B) w a w' :
  m w = (Ok a, w') -> bind m k w = k a w'.
Proof. intros H. unfold bind. rewrite H. reflexivity. Qed.

Lemma bind_raise {A B} (m : M A) (k : A -> M B) w e w' :
  m w = (Raise e, w') -> bind m k w = (Raise e, w').
Proof. intros H. unfold bind. rewrite H. reflexivity. Qed.

Lemma for_each_app {A} (l1 l2 : list A) (body : A -> M unit) w w1 :
  for_each l1 body w = (Ok tt, w1) ->
  for_each (l1 ++ l2) body w = for_each l2 body w1.
Proof.
  revert w. induction l1 as [|x l1 IH]; intros w H; simpl in *.
  - unfold ret in H. congruence.
  - unfold bind in *. destruct (body x w) as [[[]|e] w2]; [|discriminate].
    apply IH, H.
Qed.

(** A test that leaves the world alone filters like [filter]. *)
Lemma filter_m_pure {A} (p : A -> M bool) (f : A -> bool) (l : list A) w :
  (forall x, x ∈ l -> p x w = (Ok (f x), w)) ->
  filter_m p l w = (Ok (List.filter f l), w).
Proof.
  induction l as [|x l IH]; intros H; simpl; [reflexivity|].
  rewrite (bind_ok _ _ _ _ _ (H x (list_elem_of_here _ _))).
  rewrite (bind_ok _ _ _ _ _ (IH (fun y Hy => H y (list_elem_of_further _ _ _ Hy)))).
  unfold ret. destruct (f x); reflexivity.
Qed.

(** ** relocate *)

Lemma random_choice_ok {A} (seq : list A) w :
  seq <> [] ->
  exists x g', random_choice seq w = (Ok x, {| env := env w; rnd := g' |})
               /\ x ∈ seq.
Proof.
  intros Hne. destruct seq as [|y seq']; [congruence|].
  unfold random_choice, bind, with_rng, lift.
  set (l := y :: seq') in *.
  pose proof (randbelow_range (rnd w) (Z.of_nat (length l))) as Hr.
  destruct (randbelow (rnd w) (Z.of_nat (length l))) as [j g'].
  simpl in Hr. assert (0 <= j < Z.of_nat (length l)) as Hj.
  { apply Hr. subst l. simpl. lia. }
  destruct (lookup_lt_is_Some_2 l (Z.to_nat j)) as [x Hx]; [lia|].
  exists x, g'. rewrite <- (Z2Nat.id j) by lia.
  rewrite (py_getitem_lookup _ _ _ Hx). split; [reflexivity|].
  eapply list_elem_of_lookup_2, Hx.
Qed.

Lemma random_choice_empty {A} w :
  random_choice (@nil A) w = (Raise IndexError, w).
Proof. reflexivity. Qed.

Lemma grid_setitem_ok (c : coord) (v : option ref) w :
  is_Some (cell (grid (env w)) c) ->
  exists gr', grid_setitem c.1 c.2 v w
              = (Ok tt, {| env := set_grid (env w) gr'; rnd := rnd w |})
    /\ forall c', cell gr' c' = if coord_eqb c' c then Some v
                                 else cell (grid (env w)) c'.
Proof.
  intros H. destruct (grid_set_cell _ _ v H) as (gr' & Hset & Hcell).
  exists gr'. split; [|exact Hcell].
  unfold grid_setitem, bind, get_env, lift, modify_env. rewrite Hset. reflexivity.
Qed.

Lemma relocate_ok n_rows n_cols (agent : ref) (a : DataScientist) w :
  GridInv n_rows n_cols (env w) ->
  empty_cells (env w) <> [] ->
  agents (env w) !! agent = Some a ->
  exists new_loc w', relocate agent w = (Ok tt, w')
                     /\ RelocPost agent a new_loc w w'.
Proof.
  intros Inv Hne Ha.
  destruct (random_choice_ok (empty_cells (env w)) w Hne) as (new_loc & g' & Hch & Hin).
  assert (Hnew : cell (grid (env w)) new_loc = Some None)
    by (apply (inv_free_none _ _ _ Inv), Hin).
  assert (Hold : cell (grid (env w)) (coordinates a) = Some (Some agent))
    by (apply (inv_agent_cell _ _ _ Inv), Ha).
  assert (Hdiff : coordinates a <> new_loc) by congruence.
  set (w1 := {| env := env w; rnd := g' |}) in *.
  destruct (grid_setitem_ok new_loc (Some agent) w1) as (gr1 & Hs1 & Hc1).
  { unfold w1. cbn [env]. rewrite Hnew. eauto. }
  set (w2 := {| env := set_grid (env w1) gr1; rnd := rnd w1 |}) in *.
  destruct (grid_setitem_ok (coordinates a) None w2) as (gr2 & Hs2 & Hc2).
  { unfold w2. cbn [env grid set_grid]. rewrite Hc1.
    apply coord_eqb_neq in Hdiff. rewrite Hdiff. unfold w1. cbn [env].
    rewrite Hold. eauto. }
  destruct (list_remove_elem _ _ Hin) as [l' Hl'].
  eexists new_loc, _. split.
  - unfold relocate.
    erewrite (bind_ok get_random_empty_cell) by exact Hch.
    erewrite (bind_ok (deref agent)); cycle 1.
    { unfold deref, bind, get_env. simpl. rewrite Ha. reflexivity. }
    erewrite bind_ok by exact Hs1.
    erewrite bind_ok by exact Hs2.
    unfold set_coordinates, deref, empty_cells_remove, empty_cells_append,
      bind, get_env, modify_env, ret. simpl. rewrite Ha. simpl. rewrite Hl'.
    reflexivity.
  - split; cbn [env grid agents empty_cells n_agents set_grid set_agents
                  set_empty_cells].
    + exact Hin.
    + intros c. rewrite Hc2. unfold w2. cbn [env grid set_grid].
      rewrite Hc1. reflexivity.
    + destruct new_loc; reflexivity.
    + exists l'. split; [exact Hl'|reflexivity].
    + reflexivity.
Qed.

Lemma relocate_empty (agent : ref) w :
  empty_cells (env w) = [] -> relocate agent w = (Raise IndexError, w).
Proof.
  intros H. unfold relocate, get_random_empty_cell, bind, get_env.
  rewrite H. reflexivity.
Qed.

Lemma RelocPost_inv n_rows n_cols agent a new_loc w w' :
  GridInv n_rows n_cols (env w) ->
  agents (env w) !! agent = Some a ->
  RelocPost agent a new_loc w w' ->
  GridInv n_rows n_cols (env w').
Proof.
  intros Inv Ha [Hin Hcells Hag (l' & Hl' & Hfree) _].
  assert (Hnew : cell (grid (env w)) new_loc = Some None)
    by (apply (inv_free_none _ _ _ Inv), Hin).
  assert (Hold : cell (grid (env w)) (coordinates a) = Some (Some agent))
    by (apply (inv_agent_cell _ _ _ Inv), Ha).
  assert (Hdiff : coordinates a <> new_loc) by congruence.
  destruct (list_remove_NoDup _ _ _ Hl' (inv_free_nodup _ _ _ Inv)) as [Hnd Hmem].
  assert (Hcoord : coordinates (with_coordinates a new_loc) = new_loc)
    by (destruct new_loc; reflexivity).
  assert (Hlt : (agent < length (agents (env w)))%nat)
    by (eapply lookup_lt_Some, Ha).
  split.
  - intros c. rewrite Hcells, (inv_shape _ _ _ Inv c).
    destruct (coord_eqb c (coordinates a)) eqn:E1.
    { apply coord_eqb_eq in E1. subst c. rewrite Hold. split; eauto. }
    destruct (coord_eqb c new_loc) eqn:E2; [|tauto].
    apply coord_eqb_eq in E2. subst c. rewrite Hnew. split; eauto.
  - rewrite Hfree. apply NoDup_app. split; [exact Hnd|]. split.
    + intros x Hx Hx'. apply list_elem_of_singleton in Hx'. subst x.
      apply Hmem in Hx as [Hx _].
      apply (inv_free_none _ _ _ Inv) in Hx. congruence.
    + apply NoDup_singleton.
  - intros c. rewrite Hfree, elem_of_app, list_elem_of_singleton, Hmem, Hcells.
    destruct (coord_eqb c (coordinates a)) eqn:E1.
    { apply coord_eqb_eq in E1. tauto. }
    apply coord_eqb_neq in E1.
    destruct (coord_eqb c new_loc) eqn:E2.
    { apply coord_eqb_eq in E2. split; [|discriminate]. intros [[_ ?]|?]; congruence. }
    apply coord_eqb_neq in E2. rewrite (inv_free_none _ _ _ Inv). tauto.
  - intros i b Hb. rewrite Hag in Hb. rewrite Hcells.
    destruct (decide (i = agent)) as [->|Hne].
    + rewrite list_lookup_insert_eq in Hb by exact Hlt. injection Hb as <-.
      rewrite Hcoord. apply not_eq_sym, coord_eqb_neq in Hdiff. rewrite Hdiff.
      rewrite (proj2 (coord_eqb_eq _ _) eq_refl). reflexivity.
    + rewrite list_lookup_insert_ne in Hb by congruence.
      pose proof (inv_agent_cell _ _ _ Inv _ _ Hb) as Hc.
      destruct (coord_eqb (coordinates b) (coordinates a)) eqn:E1.
      { apply coord_eqb_eq in E1. congruence. }
      destruct (coord_eqb (coordinates b) new_loc) eqn:E2; [|exact Hc].
      apply coord_eqb_eq in E2. congruence.
  - intros c i Hc. rewrite Hcells in Hc. unfold occupies. rewrite Hag.
    destruct (coord_eqb c (coordinates a)) eqn:E1; [discriminate|].
    apply coord_eqb_neq in E1.
    destruct (coord_eqb c new_loc) eqn:E2.
    + apply coord_eqb_eq in E2. injection Hc as <-. subst c.
      exists (with_coordinates a new_loc). split; [|exact Hcoord].
      apply list_lookup_insert_eq, Hlt.
    + destruct (inv_cell_agent _ _ _ Inv _ _ Hc) as (b & Hb & Hbc).
      exists b. split; [|exact Hbc].
      rewrite list_lookup_insert_ne; [exact Hb|]. intros ->. congruence.
  - rewrite Hfree, Hag, length_app, length_insert. simpl.
    pose proof (list_remove_length _ _ _ Hl').
    pose proof (inv_count _ _ _ Inv). lia.
Qed.

Lemma RelocPost_free_length agent a new_loc w w' :
  RelocPost agent a new_loc w w' ->
  length (empty_cells (env w')) = length (empty_cells (env w)).
Proof.
  intros [_ _ _ (l' & Hl' & Hfree) _]. rewrite Hfree, length_app. simpl.
  apply list_remove_length in Hl'. lia.
Qed.

Lemma RelocPost_agents_length agent a new_loc w w' :
  RelocPost agent a new_loc w w' ->
  length (agents (env w')) = length (agents (env w)).
Proof. intros [_ _ Hag _ _]. rewrite Hag. apply length_insert. Qed.

(** Any call of [relocate] on an agent of the store, returning or not,
    leaves a consistent grid consistent. *)
Lemma relocate_inv n_rows n_cols agent w r w' :
  GridInv n_rows n_cols (env w) ->
  is_Some (agents (env w) !! agent) ->
  relocate agent w = (r, w') ->
  GridInv n_rows n_cols (env w').
Proof.
  intros Inv [a Ha] Hrel.
  destruct (empty_cells (env w)) as [|x l] eqn:Hfree.
  - rewrite (relocate_empty _ _ Hfree) in Hrel. injection Hrel as _ <-. exact Inv.
  - destruct (relocate_ok n_rows n_cols agent a w Inv) as (nl & w1 & Hr & Hp);
      [rewrite Hfree; discriminate | exact Ha |].
    rewrite Hr in Hrel. injection Hrel as _ <-.
    eapply RelocPost_inv; eauto.
Qed.

(** The grid invariant in the words of the specification. *)
Lemma GridInv_SpecInv n_rows n_cols g :
  GridInv n_rows n_cols g -> SpecInv n_rows n_cols g.
Proof.
  intros Inv. split.
  - apply (inv_count _ _ _ Inv).
  - intros c Hc. apply (inv_shape _ _ _ Inv) in Hc as [[i|] Hv].
    + right. split.
      * rewrite (inv_free_none _ _ _ Inv). congruence.
      * exists i. split; [exact Hv|].
        split; [apply (inv_cell_agent _ _ _ Inv), Hv|].
        intros j (b & Hb & Hbc). apply (inv_agent_cell _ _ _ Inv) in Hb.
        congruence.
    + left. split; [apply (inv_free_none _ _ _ Inv), Hv|].
      split; [exact Hv|].
      intros i (b & Hb & Hbc). apply (inv_agent_cell _ _ _ Inv) in Hb.
      congruence.
  - apply (inv_agent_cell _ _ _ Inv).
  - intros c Hc. apply (inv_shape _ _ _ Inv).
    apply (inv_free_none _ _ _ Inv) in Hc. rewrite Hc. eauto.
  - apply (inv_free_nodup _ _ _ Inv).
Qed.

(** ** GridWorld.__init__ *)

(** On the agent counts a grid of [N_CELLS] cells allows, the float
    computation [int(n * 0.5)] is exact: it halves and truncates. *)
Lemma r_prefix_small (n : Z) : 0 <= n <= N_CELLS -> r_prefix n = Ok (n / 2).
Proof.
  intros Hn.
  assert (Hall : forallb (fun k => match r_prefix k with
                                   | Ok l => l =? k / 2
                                   | Raise _ => false
                                   end) (range (N_CELLS + 1)) = true)
    by (vm_compute; reflexivity).
  rewrite forallb_forall in Hall. specialize (Hall n).
  destruct (r_prefix n) as [l|e].
  - f_equal. apply Z.eqb_eq, Hall.
    apply list_elem_of_In, elem_of_seqZ. lia.
  - discriminate Hall. apply list_elem_of_In, elem_of_seqZ. lia.
Qed.

Lemma make_agents_length lim k cs : length (make_agents lim k cs) = length cs.
Proof. revert k. induction cs; intros k; simpl; auto. Qed.

Lemma make_agents_lookup lim k cs i c :
  cs !! i = Some c ->
  make_agents lim k cs !! i = Some (new_agent lim (Z.of_nat (k + i)) c).
Proof.
  revert k i. induction cs as [|c0 cs IH]; intros k i H; [discriminate|].
  destruct i as [|i]; simpl in *.
  - injection H as ->. rewrite Nat.add_0_r. reflexivity.
  - rewrite (IH (S k) i H). do 3 f_equal. lia.
Qed.

Lemma make_agents_snoc lim k cs c :
  make_agents lim k (cs ++ [c])
  = make_agents lim k cs ++ [new_agent lim (Z.of_nat (k + length cs)) c].
Proof.
  revert k. induction cs as [|c0 cs IH]; intros k; simpl.
  - rewrite Nat.add_0_r. reflexivity.
  - rewrite IH. do 4 f_equal. lia.
Qed.

Lemma place_agent_ok n_rows n_cols coords (k : nat) c lim (g : GridWorld) r :
  r_prefix (n_agents g) = Ok lim ->
  coords !! k = Some c ->
  length (agents g) = k ->
  GridInv n_rows n_cols (set_empty_cells g (drop k coords)) ->
  exists g',
    place_agent coords (Z.of_nat k) {| env := g; rnd := r |}
    = (Ok tt, {| env := g'; rnd := r |})
    /\ agents g' = agents g ++ [new_agent lim (Z.of_nat k) c]
    /\ n_agents g' = n_agents g
    /\ empty_cells g' = empty_cells g
    /\ GridInv n_rows n_cols (set_empty_cells g' (drop (S k) coords)).
Proof.
  intros Hlim Hc Hlen Inv.
  rewrite (drop_S _ _ _ Hc) in Inv.
  assert (Hfree : cell (grid g) c = Some None).
  { apply (inv_free_none _ _ _ Inv). simpl. apply list_elem_of_here. }
  destruct (grid_setitem_ok c (Some k) {| env := g; rnd := r |}) as (gr' & Hs & Hcell).
  { simpl. rewrite Hfree. eauto. }
  simpl in Hs, Hcell.
  exists (set_agents (set_grid g gr') (agents g ++ [new_agent lim (Z.of_nat k) c])).
  split; [|split; [reflexivity|split; [reflexivity|split; [reflexivity|]]]].
  - unfold place_agent, bind, get_env, lift. simpl. rewrite Hlim.
    rewrite (py_getitem_lookup _ _ _ Hc). simpl. rewrite Hlen.
    unfold bind in Hs. simpl in Hs. rewrite Hs. reflexivity.
  - pose proof (inv_free_nodup _ _ _ Inv) as Hnd. simpl in Hnd.
    apply NoDup_cons in Hnd as [Hc_notin Hnd].
    split; simpl.
    + intros c'. rewrite Hcell, (inv_shape _ _ _ Inv c'). simpl.
      destruct (coord_eqb c' c) eqn:E; [|tauto].
      apply coord_eqb_eq in E. subst c'. rewrite Hfree. split; eauto.
    + exact Hnd.
    + intros c'. rewrite Hcell. pose proof (inv_free_none _ _ _ Inv c') as Hiff.
      simpl in Hiff. rewrite elem_of_cons in Hiff.
      destruct (coord_eqb c' c) eqn:E.
      * apply coord_eqb_eq in E. subst c'. split; [contradiction|discriminate].
      * apply coord_eqb_neq in E. tauto.
    + intros i b Hb. rewrite Hcell.
      apply lookup_app_Some in Hb as [Hb|[Hge Hb]].
      * pose proof (inv_agent_cell _ _ _ Inv i b Hb) as Hcb. simpl in Hcb.
        destruct (coord_eqb (coordinates b) c) eqn:E; [|exact Hcb].
        apply coord_eqb_eq in E. congruence.
      * apply list_lookup_singleton_Some in Hb as [Hi <-].
        assert (i = k) as -> by lia.
        replace (coordinates (new_agent lim (Z.of_nat k) c)) with c
          by (destruct c; reflexivity).
        rewrite (proj2 (coord_eqb_eq _ _) eq_refl). reflexivity.
    + intros c' i Hci. rewrite Hcell in Hci. unfold occupies. simpl.
      destruct (coord_eqb c' c) eqn:E.
      * apply coord_eqb_eq in E. subst c'. injection Hci as <-.
        exists (new_agent lim (Z.of_nat k) c). split; [|destruct c; reflexivity].
        rewrite lookup_app_r by lia. rewrite Hlen, Nat.sub_diag. reflexivity.
      * destruct (inv_cell_agent _ _ _ Inv c' i Hci) as (b & Hb & Hbc).
        simpl in Hb. exists b. split; [|exact Hbc].
        apply lookup_app_l_Some, Hb.
    + pose proof (inv_count _ _ _ Inv) as Hcnt. simpl in Hcnt.
      rewrite length_app. simpl. lia.
Qed.

Lemma place_loop n_rows n_cols coords lim (m : nat) :
  forall (k : nat) (g : GridWorld) r,
  r_prefix (n_agents g) = Ok lim ->
  length (agents g) = k ->
  (k + m <= length coords)%nat ->
  GridInv n_rows n_cols (set_empty_cells g (drop k coords)) ->
  exists g',
    for_each (seqZ (Z.of_nat k) (Z.of_nat m)) (place_agent coords)
      {| env := g; rnd := r |}
    = (Ok tt, {| env := g'; rnd := r |})
    /\ agents g' = agents g ++ make_agents lim k (take m (drop k coords))
    /\ n_agents g' = n_agents g
    /\ empty_cells g' = empty_cells g
    /\ GridInv n_rows n_cols (set_empty_cells g' (drop (k + m) coords)).
Proof.
  induction m as [|m IH]; intros k g r Hlim Hlen Hle Inv.
  - exists g. rewrite Nat.add_0_r, take_0, app_nil_r. simpl. auto.
  - destruct (lookup_lt_is_Some_2 coords k) as [c Hc]; [lia|].
    destruct (place_agent_ok _ _ _ _ _ _ _ r Hlim Hc Hlen Inv)
      as (g1 & Hstep & Hag1 & Hn1 & Hfree1 & Inv1).
    destruct (IH (S k) g1 r) as (g2 & Hrest & Hag2 & Hn2 & Hfree2 & Inv2).
    + rewrite Hn1. exact Hlim.
    + rewrite Hag1, length_app. simpl. lia.
    + lia.
    + exact Inv1.
    + exists g2. split; [|split; [|split; [congruence|split; [congruence|]]]].
      * rewrite seqZ_cons by lia. simpl.
        rewrite (bind_ok _ _ _ _ _ Hstep).
        replace (Z.succ (Z.of_nat k)) with (Z.of_nat (S k)) by lia.
        replace (Z.pred (Z.of_nat (S m))) with (Z.of_nat m) by lia.
        exact Hrest.
      * rewrite Hag2, Hag1, (drop_S _ _ _ Hc). simpl.
        rewrite <- app_assoc. reflexivity.
      * replace (k + S m)%nat with (S k + m)%nat by lia. exact Inv2.
Qed.

Lemma in_bounds_max n_rows n_cols c :
  in_bounds (Z.max 0 n_rows) (Z.max 0 n_cols) c <-> in_bounds n_rows n_cols c.
Proof. unfold in_bounds. lia. Qed.

Lemma shuffled_coords_Permutation os n_rows n_cols seed :
  shuffled_coords os n_rows n_cols seed ≡ₚ product (range n_rows) (range n_cols).
Proof. apply shuffle_Permutation. Qed.

Lemma shuffled_coords_length os n_rows n_cols seed :
  Z.of_nat (length (shuffled_coords os n_rows n_cols seed))
  = Z.max 0 n_rows * Z.max 0 n_cols.
Proof.
  rewrite (Permutation_length (shuffled_coords_Permutation _ _ _ _)).
  rewrite product_length. lia.
Qed.

(** Before the first agent is placed every position is free. *)
Lemma GridInv_start n n_rows n_cols coords :
  coords ≡ₚ product (range n_rows) (range n_cols) ->
  GridInv (Z.max 0 n_rows) (Z.max 0 n_cols)
    {| n_agents := n;
       grid := replicate (length (range n_rows))
                 (replicate (length (range n_cols)) None);
       agents := [];
       empty_cells := coords |}.
Proof.
  intros Hperm.
  assert (Hcell : forall c,
    cell (replicate (length (range n_rows))
            (replicate (length (range n_cols)) None)) c = Some None
    <-> in_bounds n_rows n_cols c).
  { intros c. rewrite cell_replicate. unfold in_bounds.
    destruct (0 <=? c.1) eqn:E1, (c.1 <? n_rows) eqn:E2,
             (0 <=? c.2) eqn:E3, (c.2 <? n_cols) eqn:E4; simpl;
      rewrite ?Z.leb_le, ?Z.leb_gt, ?Z.ltb_lt, ?Z.ltb_ge in *;
      split; intros H; try discriminate; try reflexivity; lia. }
  split; simpl.
  - intros c. rewrite in_bounds_max, <- Hcell, cell_replicate.
    destruct (_ && _); split; intros H; eauto; try discriminate.
    destruct H; discriminate.
  - rewrite Hperm. apply product_NoDup.
  - intros c. rewrite Hperm, product_elem, Hcell. reflexivity.
  - intros i a H. discriminate.
  - intros c i H. rewrite cell_replicate in H. destruct (_ && _); discriminate.
  - rewrite (Permutation_length Hperm), product_length. lia.
Qed.

(** The object [__init__] builds when the agents fit on the grid. *)
Lemma GridWorld_init_ok os n_rows n_cols n_empty seed g0 :
  0 <= n_empty <= N_CELLS ->
  N_CELLS - n_empty <= Z.max 0 n_rows * Z.max 0 n_cols ->
  let coords := shuffled_coords os n_rows n_cols seed in
  let n := Z.to_nat (N_CELLS - n_empty) in
  exists g g1,
    GridWorld_init os n_rows n_cols n_empty seed g0 = (Ok g, g1)
    /\ n_agents g = N_CELLS - n_empty
    /\ agents g = make_agents ((N_CELLS - n_empty) / 2) 0 (take n coords)
    /\ empty_cells g = drop n coords
    /\ GridInv (Z.max 0 n_rows) (Z.max 0 n_cols) g.
Proof.
  intros Hn Hfit coords n.
  pose proof (shuffled_coords_length os n_rows n_cols seed) as Hlen.
  fold coords in Hlen.
  set (s := rng_seed (match seed with Some z => z | None => os end)).
  set (start := {| n_agents := N_CELLS - n_empty;
                   grid := replicate (length (range n_rows))
                             (replicate (length (range n_cols)) None);
                   agents := []; empty_cells := [] |}).
  destruct (place_loop (Z.max 0 n_rows) (Z.max 0 n_cols) coords
              ((N_CELLS - n_empty) / 2) n 0%nat start
              (shuffle (product (range n_rows) (range n_cols)) s).2)
    as (g' & Hloop & Hag & Hna & Hfree & Inv).
  { apply r_prefix_small. simpl. lia. }
  { reflexivity. }
  { lia. }
  { apply (GridInv_start _ _ _ coords), shuffled_coords_Permutation. }
  exists (set_empty_cells g' (drop n coords)), (shuffle (product (range n_rows) (range n_cols)) s).2.
  split; [|split; [exact Hna|split; [exact Hag|split; [reflexivity|exact Inv]]]].
  unfold GridWorld_init, GridWorld_init_body.
  unfold bind at 1. unfold modify_env at 1. cbn [env rnd].
  unfold bind at 1. unfold get_env at 1. cbn [env rnd n_agents].
  unfold bind at 1. unfold random_seed at 1. cbn [env rnd].
  unfold bind at 1. unfold random_shuffle, with_rng. cbn [env rnd].
  fold s. destruct (shuffle (product (range n_rows) (range n_cols)) s) as [cs g1] eqn:Hsh.
  assert (cs = coords) as -> by (unfold coords, shuffled_coords; fold s; rewrite Hsh; reflexivity).
  simpl in Hloop.
  assert (Hloop' : for_each (range (N_CELLS - n_empty)) (place_agent coords)
                     {| env := start; rnd := g1 |}
                   = (Ok tt, {| env := g'; rnd := g1 |})).
  { unfold range. replace (N_CELLS - n_empty) with (Z.of_nat n) by lia.
    exact Hloop. }
  unfold bind at 1. fold start. rewrite Hloop'.
  unfold modify_env. cbn [env rnd]. rewrite Hna.
  unfold py_slice_from. cbn [n_agents start].
  replace (0 <=? N_CELLS - n_empty) with true
    by (symmetry; apply Z.leb_le; lia).
  reflexivity.
Qed.

(** With more agents than positions the placement loop runs off the
    end of the shuffled list. *)
Lemma GridWorld_init_overfull os n_rows n_cols n_empty seed g0 :
  0 <= n_empty <= N_CELLS ->
  Z.max 0 n_rows * Z.max 0 n_cols < N_CELLS - n_empty ->
  exists g1,
    GridWorld_init os n_rows n_cols n_empty seed g0 = (Raise IndexError, g1).
Proof.
  intros Hn Hover.
  set (coords := shuffled_coords os n_rows n_cols seed).
  pose proof (shuffled_coords_length os n_rows n_cols seed) as Hlen.
  fold coords in Hlen.
  set (s := rng_seed (match seed with Some z => z | None => os end)).
  set (start := {| n_agents := N_CELLS - n_empty;
                   grid := replicate (length (range n_rows))
                             (replicate (length (range n_cols)) None);
                   agents := []; empty_cells := [] |}).
  assert (Hlim : r_prefix (n_agents start) = Ok ((N_CELLS - n_empty) / 2))
    by (apply r_prefix_small; simpl; lia).
  destruct (place_loop (Z.max 0 n_rows) (Z.max 0 n_cols) coords
              ((N_CELLS - n_empty) / 2) (length coords) 0%nat start
              (shuffle (product (range n_rows) (range n_cols)) s).2)
    as (g' & Hloop & Hag & Hna & Hfree & Inv).
  { exact Hlim. }
  { reflexivity. }
  { lia. }
  { apply (GridInv_start _ _ _ coords), shuffled_coords_Permutation. }
  exists (shuffle (product (range n_rows) (range n_cols)) s).2.
  unfold GridWorld_init, GridWorld_init_body.
  unfold bind at 1. unfold modify_env at 1. cbn [env rnd].
  unfold bind at 1. unfold get_env at 1. cbn [env rnd n_agents].
  unfold bind at 1. unfold random_seed at 1. cbn [env rnd].
  unfold bind at 1. unfold random_shuffle, with_rng. cbn [env rnd].
  fold s. destruct (shuffle (product (range n_rows) (range n_cols)) s) as [cs g1] eqn:Hsh.
  assert (cs = coords) as -> by (unfold coords, shuffled_coords; fold s; rewrite Hsh; reflexivity).
  simpl in Hloop.
  assert (Hloop' : for_each (range (N_CELLS - n_empty)) (place_agent coords)
                     {| env := start; rnd := g1 |}
                   = (Raise IndexError, {| env := g'; rnd := g1 |})).
  { unfold range.
    replace (N_CELLS - n_empty)
      with (Z.of_nat (length coords)
            + (N_CELLS - n_empty - Z.of_nat (length coords))) by lia.
    rewrite seqZ_app by lia. rewrite (for_each_app _ _ _ _ _ Hloop).
    rewrite seqZ_cons by lia. simpl.
    apply bind_raise. unfold place_agent, bind, get_env, lift. simpl.
    rewrite Hna, Hlim. rewrite py_getitem_above by lia. reflexivity. }
  unfold bind at 1. fold start. rewrite Hloop'. reflexivity.
Qed.

Lemma reachable_GridInv n_rows n_cols n_empty w :
  0 <= n_empty <= N_CELLS ->
  reachable n_rows n_cols n_empty w ->
  GridInv (Z.max 0 n_rows) (Z.max 0 n_cols) (env w).
Proof.
  intros Hn Hreach. induction Hreach as [os seed g0 g g1 Hinit|w agent r w' _ IH Hag Hrel].
  - destruct (Z_le_gt_dec (N_CELLS - n_empty) (Z.max 0 n_rows * Z.max 0 n_cols))
      as [Hfit|Hover].
    + destruct (GridWorld_init_ok os n_rows n_cols n_empty seed g0 Hn Hfit)
        as (g' & g1' & Heq & _ & _ & _ & Inv).
      rewrite Heq in Hinit. injection Hinit as <- <-. exact Inv.
    + destruct (GridWorld_init_overfull os n_rows n_cols n_empty seed g0 Hn)
        as (g1' & Heq); [lia|].
      rewrite Heq in Hinit. discriminate.
  - eapply relocate_inv; eauto.
Qed.

(** ** The invariant after any construction that places agents *)

Lemma place_agent_returns n_rows n_cols coords (k : nat) (g : GridWorld) r w' :
  length (agents g) = k ->
  GridInv n_rows n_cols (set_empty_cells g (drop k coords)) ->
  place_agent coords (Z.of_nat k) {| env := g; rnd := r |} = (Ok tt, w') ->
  (k < length coords)%nat
  /\ rnd w' = r
  /\ length (agents (env w')) = S k
  /\ n_agents (env w') = n_agents g
  /\ GridInv n_rows n_cols (set_empty_cells (env w') (drop (S k) coords)).
Proof.
  intros Hlen Inv H.
  destruct (r_prefix (n_agents g)) as [lim|e] eqn:Hlim; cycle 1.
  { unfold place_agent, bind, get_env, lift in H. simpl in H.
    rewrite Hlim in H. discriminate. }
  destruct (coords !! k) as [c|] eqn:Hc; cycle 1.
  { unfold place_agent, bind, get_env, lift in H. simpl in H.
    rewrite Hlim in H. apply lookup_ge_None in Hc.
    rewrite py_getitem_above in H by lia. discriminate. }
  destruct (place_agent_ok _ _ _ _ _ _ _ r Hlim Hc Hlen Inv)
    as (g' & Hstep & Hag & Hn & _ & Inv').
  rewrite Hstep in H. injection H as <-. cbn [env rnd].
  split; [eapply lookup_lt_Some, Hc|]. split; [reflexivity|].
  split; [rewrite Hag, length_app; simpl; lia|]. split; assumption.
Qed.

Lemma place_loop_returns n_rows n_cols coords (m : nat) :
  forall (k : nat) (g : GridWorld) r w',
  length (agents g) = k ->
  (k <= length coords)%nat ->
  GridInv n_rows n_cols (set_empty_cells g (drop k coords)) ->
  for_each (seqZ (Z.of_nat k) (Z.of_nat m)) (place_agent coords)
    {| env := g; rnd := r |} = (Ok tt, w') ->
  (k + m <= length coords)%nat
  /\ length (agents (env w')) = (k + m)%nat
  /\ n_agents (env w') = n_agents g
  /\ GridInv n_rows n_cols (set_empty_cells (env w') (drop (k + m) coords)).
Proof.
  induction m as [|m IH]; intros k g r w' Hlen Hk Inv H.
  - simpl in H. injection H as <-. cbn [env]. rewrite Nat.add_0_r. auto.
  - rewrite seqZ_cons in H by lia. simpl in H. unfold bind at 1 in H.
    destruct (place_agent coords (Z.of_nat k) {| env := g; rnd := r |})
      as [[[]|e] w1] eqn:Hstep; [|discriminate].
    destruct (place_agent_returns _ _ _ _ _ _ _ Hlen Inv Hstep)
      as (Hk1 & Hr & Hlen1 & Hn1 & Inv1).
    destruct w1 as [g1 r1]. cbn [env rnd] in *. subst r1.
    replace (Z.succ (Z.of_nat k)) with (Z.of_nat (S k)) in H by lia.
    replace (Z.pred (Z.of_nat (S m))) with (Z.of_nat m) in H by lia.
    destruct (IH (S k) g1 r w' Hlen1 ltac:(lia) Inv1 H) as (Hle & Hlen2 & Hn2 & Inv2).
    replace (k + S m)%nat with (S k + m)%nat by lia.
    split; [exact Hle|]. split; [exact Hlen2|]. split; [congruence|exact Inv2].
Qed.

(** Whenever [__init__] returns with an agent count that is not
    negative, the object it built is consistent: the agents fitted, and
    the slice [coords[n_agents:]] is what the agents left. *)
Lemma GridWorld_init_GridInv os n_rows n_cols n_empty seed g0 g g1 :
  n_empty <= N_CELLS ->
  GridWorld_init os n_rows n_cols n_empty seed g0 = (Ok g, g1) ->
  GridInv (Z.max 0 n_rows) (Z.max 0 n_cols) g
  /\ Z.of_nat (length (agents g)) = N_CELLS - n_empty.
Proof.
  intros Hn.
  set (coords := shuffled_coords os n_rows n_cols seed).
  set (s := rng_seed (match seed with Some z => z | None => os end)).
  set (start := {| n_agents := N_CELLS - n_empty;
                   grid := replicate (length (range n_rows))
                             (replicate (length (range n_cols)) None);
                   agents := []; empty_cells := [] |}).
  unfold GridWorld_init, GridWorld_init_body.
  unfold bind at 1. unfold modify_env at 1. cbn [env rnd].
  unfold bind at 1. unfold get_env at 1. cbn [env rnd n_agents].
  unfold bind at 1. unfold random_seed at 1. cbn [env rnd].
  unfold bind at 1. unfold random_shuffle, with_rng. cbn [env rnd].
  fold s. destruct (shuffle (product (range n_rows) (range n_cols)) s) as [cs r] eqn:Hsh.
  assert (cs = coords) as -> by (unfold coords, shuffled_coords; fold s; rewrite Hsh; reflexivity).
  unfold bind at 1. fold start.
  destruct (for_each (range (N_CELLS - n_empty)) (place_agent coords)
              {| env := start; rnd := r |}) as [[[]|e] w1] eqn:Hloop;
    [|discriminate].
  unfold range in Hloop.
  replace (N_CELLS - n_empty) with (Z.of_nat (Z.to_nat (N_CELLS - n_empty)))
    in Hloop by lia.
  destruct (place_loop_returns (Z.max 0 n_rows) (Z.max 0 n_cols) coords
              (Z.to_nat (N_CELLS - n_empty)) 0%nat start r w1)
    as (Hle & Hlen & Hna & Inv).
  { reflexivity. }
  { lia. }
  { apply (GridInv_start _ _ _ coords), shuffled_coords_Permutation. }
  { exact Hloop. }
  unfold modify_env. cbn [env rnd]. intros [= <- <-]. rewrite Hna.
  cbn [n_agents start]. unfold py_slice_from.
  replace (0 <=? N_CELLS - n_empty) with true by (symmetry; apply Z.leb_le; lia).
  split; [exact Inv|]. cbn [agents set_empty_cells]. rewrite Hlen. lia.
Qed.

Lemma reachable_consistent n_rows n_cols n_empty w :
  n_empty <= N_CELLS ->
  reachable n_rows n_cols n_empty w ->
  GridInv (Z.max 0 n_rows) (Z.max 0 n_cols) (env w).
Proof.
  intros Hn Hreach.
  induction Hreach as [os seed g0 g g1 Hinit|w agent r w' _ IH Hag Hrel].
  - apply (GridWorld_init_GridInv _ _ _ _ _ _ _ _ Hn Hinit).
  - eapply relocate_inv; eauto.
Qed.

(** ** The claims on the grid invariant and on relocate *)

(** C1 (as the code has it). Every state reached by constructing the
    grid world with at most [N_CELLS] empty cells asked for (so that the
    agent count [N_CELLS - n_empty] is not negative) and then calling
    [relocate] any number of times on agents of the store, whether the
    calls return or raise, satisfies the grid invariant: free cells plus
    agents make up [rows * cols] (a negative dimension gives no position
    and counts as 0); every position of the grid is either free, with an
    empty grid cell and no agent, or not free, with a grid cell that holds
    the one agent positioned there; the grid cell at every agent's
    position holds that agent; and the free list holds positions of the
    grid, each once. *)
Theorem reachable_invariant n_rows n_cols n_empty w :
  n_empty <= N_CELLS ->
  reachable n_rows n_cols n_empty w ->
  SpecInv (Z.max 0 n_rows) (Z.max 0 n_cols) (env w).
Proof.
  intros Hn Hreach. apply GridInv_SpecInv.
  apply (reachable_consistent _ _ _ _ Hn Hreach).
Qed.

(** C2. On a consistent grid with a free cell, [relocate agent] returns;
    afterwards the agent's former position is in the free list, its new
    position is not, the grid cell at the new position holds the agent,
    the agent keeps its id, language and threshold, and every other agent
    of the store is as it was. *)
Theorem relocate_contract n_rows n_cols (agent : ref) (a : DataScientist) w :
  GridInv n_rows n_cols (env w) ->
  empty_cells (env w) <> [] ->
  agents (env w) !! agent = Some a ->
  exists w' a',
    relocate agent w = (Ok tt, w')
    /\ agents (env w') !! agent = Some a'
    /\ (coordinates a ∈ empty_cells (env w'))
    /\ (coordinates a' ∉ empty_cells (env w'))
    /\ cell (grid (env w')) (coordinates a') = Some (Some agent)
    /\ id a' = id a /\ language a' = language a /\ threshold a' = threshold a
    /\ length (agents (env w')) = length (agents (env w))
    /\ (forall j, j <> agent -> agents (env w') !! j = agents (env w) !! j).
Proof.
  intros Inv Hne Ha.
  destruct (relocate_ok _ _ _ _ _ Inv Hne Ha) as (new_loc & w' & Hrel & Hpost).
  pose proof (RelocPost_inv _ _ _ _ _ _ _ Inv Ha Hpost) as Inv'.
  destruct Hpost as [Hin Hcells Hag (l' & Hl' & Hfree) _].
  assert (Ha' : agents (env w') !! agent = Some (with_coordinates a new_loc)).
  { rewrite Hag. apply list_lookup_insert_eq. eapply lookup_lt_Some, Ha. }
  exists w', (with_coordinates a new_loc).
  split; [exact Hrel|]. split; [exact Ha'|]. split.
  { rewrite Hfree, elem_of_app, list_elem_of_singleton. auto. }
  pose proof (inv_agent_cell _ _ _ Inv' _ _ Ha') as Hcell.
  split.
  { rewrite (inv_free_none _ _ _ Inv'). congruence. }
  split; [exact Hcell|].
  repeat split; try reflexivity.
  - rewrite Hag. apply length_insert.
  - intros j Hj. rewrite Hag. apply list_lookup_insert_ne. congruence.
Qed.

(** C4 (as the code has it). When the free list is empty, [relocate]
    fails with the [IndexError] that [random.choice] raises on an empty
    list; nothing has been changed at that point. *)
Theorem relocate_full_grid (agent : ref) w :
  empty_cells (env w) = [] ->
  relocate agent w = (Raise IndexError, w).
Proof. apply relocate_empty. Qed.

Lemma grid_setitem_agents r c v w w' :
  grid_setitem r c v w = (Ok tt, w') ->
  agents (env w') = agents (env w) /\ empty_cells (env w') = empty_cells (env w).
Proof.
  unfold grid_setitem, bind, get_env, lift, modify_env.
  destruct (grid_set (grid (env w)) r c v); [|discriminate].
  intros [= <-]. split; reflexivity.
Qed.

(** C10. If the agent's position is not in the free list and
    [relocate] returns, the agent is at a different position afterwards:
    one that was in the free list. *)
Theorem relocate_moves (agent : ref) (a : DataScientist) w w' :
  agents (env w) !! agent = Some a ->
  coordinates a ∉ empty_cells (env w) ->
  relocate agent w = (Ok tt, w') ->
  exists a', agents (env w') !! agent = Some a'
             /\ coordinates a' <> coordinates a
             /\ (coordinates a' ∈ empty_cells (env w)).
Proof.
  intros Ha Hnotin Hrel.
  destruct (empty_cells (env w)) as [|x l] eqn:Hfree.
  { rewrite (relocate_empty _ _ Hfree) in Hrel. discriminate. }
  destruct (random_choice_ok (empty_cells (env w)) w) as (new_loc & g' & Hch & Hin);
    [rewrite Hfree; discriminate|].
  rewrite Hfree in Hch, Hin.
  set (w1 := {| env := env w; rnd := g' |}) in *.
  assert (Hrc : get_random_empty_cell w = (Ok new_loc, w1)).
  { unfold get_random_empty_cell, bind, get_env. rewrite Hfree. exact Hch. }
  unfold relocate in Hrel. rewrite (bind_ok _ _ _ _ _ Hrc) in Hrel.
  erewrite (bind_ok (deref agent)) in Hrel; cycle 1.
  { unfold deref, bind, get_env. simpl. rewrite Ha. reflexivity. }
  unfold bind at 1 in Hrel.
  destruct (grid_setitem new_loc.1 new_loc.2 (Some agent) w1) as [[[]|e] w2] eqn:Hs1;
    [|discriminate].
  apply grid_setitem_agents in Hs1 as [Hag1 _].
  unfold bind at 1 in Hrel.
  destruct (grid_setitem (coordinates a).1 (coordinates a).2 None w2) as [[[]|e] w3] eqn:Hs2;
    [|discriminate].
  apply grid_setitem_agents in Hs2 as [Hag2 _].
  assert (Ha3 : agents (env w3) !! agent = Some a) by (rewrite Hag2, Hag1; exact Ha).
  unfold set_coordinates, deref, empty_cells_remove, empty_cells_append,
    bind, get_env, modify_env, ret in Hrel. rewrite Ha3 in Hrel. simpl in Hrel.
  destruct (list_remove new_loc (empty_cells (env w3))); [|discriminate].
  injection Hrel as <-. simpl.
  exists (with_coordinates a (new_loc.1, new_loc.2)).
  split; [apply list_lookup_insert_eq; eapply lookup_lt_Some, Ha3|].
  replace (coordinates (with_coordinates a (new_loc.1, new_loc.2))) with new_loc
    by (destruct new_loc; reflexivity).
  split; [congruence | exact Hin].
Qed.

(** ** Construction performs no validation *)

Lemma r_prefix_raises n e : r_prefix n = Raise e -> builtin_exn e.
Proof.
  unfold r_prefix, float_of_int, int_of_float, builtin_exn.
  destruct (binary_normalize prec emax n 0 false); try (intros [= <-]; auto);
    destruct (SFmul _ _ _ _); intros [= <-]; auto.
Qed.

Lemma place_agent_raises coords i w e w' :
  place_agent coords i w = (Raise e, w') -> builtin_exn e.
Proof.
  unfold place_agent, bind, get_env, lift.
  destruct (r_prefix (n_agents (env w))) as [lim|e1] eqn:Hp.
  - unfold py_getitem. destruct (py_index _ _) as [k|].
    + destruct (coords !! k) as [c|].
      * unfold grid_setitem, bind, get_env, lift, modify_env, grid_set.
        simpl. destruct (py_index _ _); [|intros [= <- _]; left; reflexivity].
        destruct (grid (env w) !! _); [|intros [= <- _]; left; reflexivity].
        destruct (py_index _ _); [discriminate|intros [= <- _]; left; reflexivity].
      * intros [= <- _]. left. reflexivity.
    + intros [= <- _]. left. reflexivity.
  - intros [= <- _]. eapply r_prefix_raises, Hp.
Qed.

Lemma for_each_raises {A} (P : exn -> Prop) (body : A -> M unit) (l : list A) :
  (forall x w e w', body x w = (Raise e, w') -> P e) ->
  forall w e w', for_each l body w = (Raise e, w') -> P e.
Proof.
  intros Hbody. induction l as [|x l IH]; intros w e w' H; simpl in H.
  - discriminate.
  - unfold bind in H. destruct (body x w) as [[[]|e1] w1] eqn:Hb.
    + eapply IH, H.
    + injection H as <- _. eapply Hbody, Hb.
Qed.

Lemma GridWorld_init_raises os n_rows n_cols n_empty seed g0 e g1 :
  GridWorld_init os n_rows n_cols n_empty seed g0 = (Raise e, g1) ->
  builtin_exn e.
Proof.
  unfold GridWorld_init, GridWorld_init_body.
  unfold bind at 1. unfold modify_env at 1. cbn [env rnd].
  unfold bind at 1. unfold get_env at 1. cbn [env rnd n_agents].
  unfold bind at 1. unfold random_seed at 1. cbn [env rnd].
  unfold bind at 1. unfold random_shuffle, with_rng. cbn [env rnd].
  destruct (shuffle _ _) as [cs g2].
  unfold bind at 1.
  destruct (for_each _ _ _) as [[[]|e1] w1] eqn:Hloop.
  - discriminate.
  - intros [= <- _].
    eapply (for_each_raises builtin_exn), Hloop. apply place_agent_raises.
Qed.

(** With more empty cells asked for than [N_CELLS], the agent count is
    negative, the placement loop does not run, and an object is built. *)
Lemma GridWorld_init_negative os n_rows n_cols n_empty seed g0 :
  N_CELLS < n_empty ->
  exists g g1, GridWorld_init os n_rows n_cols n_empty seed g0 = (Ok g, g1)
               /\ agents g = [].
Proof.
  intros Hn.
  unfold GridWorld_init, GridWorld_init_body.
  unfold bind at 1. unfold modify_env at 1. cbn [env rnd].
  unfold bind at 1. unfold get_env at 1. cbn [env rnd n_agents].
  unfold bind at 1. unfold random_seed at 1. cbn [env rnd].
  unfold bind at 1. unfold random_shuffle, with_rng. cbn [env rnd].
  destruct (shuffle _ _) as [cs g2].
  assert (Hr : range (N_CELLS - n_empty) = []) by (apply seqZ_nil; lia).
  rewrite Hr. simpl. eauto.
Qed.

(** C5 (as the code has it). Construction validates nothing and never
    raises [InvalidConfiguration]: whatever the arguments, only built-in
    exceptions escape.  For a number of empty cells between 0 and
    [N_CELLS] (0 included) it builds an object exactly when the
    [N_CELLS - n_empty] agents fit on the positions of the grid, and
    otherwise fails with the [IndexError] of indexing the shuffled
    positions; a number of empty cells above [N_CELLS] builds an object
    with no agents. *)
Theorem GridWorld_init_unvalidated os n_rows n_cols n_empty seed g0 :
  (forall g1, GridWorld_init os n_rows n_cols n_empty seed g0
              <> (Raise InvalidConfiguration, g1))
  /\ (0 <= n_empty <= N_CELLS ->
      N_CELLS - n_empty <= Z.max 0 n_rows * Z.max 0 n_cols ->
      exists g g1, GridWorld_init os n_rows n_cols n_empty seed g0 = (Ok g, g1))
  /\ (0 <= n_empty <= N_CELLS ->
      Z.max 0 n_rows * Z.max 0 n_cols < N_CELLS - n_empty ->
      exists g1, GridWorld_init os n_rows n_cols n_empty seed g0
                 = (Raise IndexError, g1))
  /\ (N_CELLS < n_empty ->
      exists g g1, GridWorld_init os n_rows n_cols n_empty seed g0 = (Ok g, g1)
                   /\ agents g = []).
Proof.
  split; [|split; [|split]].
  - intros g1 H. apply GridWorld_init_raises in H as [H|[H|H]]; discriminate.
  - intros Hn Hfit.
    destruct (GridWorld_init_ok os n_rows n_cols n_empty seed g0 Hn Hfit)
      as (g & g1 & Heq & _). eauto.
  - apply GridWorld_init_overfull.
  - apply GridWorld_init_negative.
Qed.

(** ** Neighbours and the satisfaction test *)

Lemma feasible_length g cs l :
  feasible g cs = Ok l -> (length l <= length cs)%nat.
Proof.
  revert l. induction cs as [|c cs IH]; intros l H; simpl in H.
  - injection H as <-. simpl. lia.
  - destruct (feasible_test g c).
    + destruct (grid_get _ _ _); [|discriminate].
      destruct (feasible g cs) as [vs|]; [|discriminate].
      injection H as <-. simpl. specialize (IH vs eq_refl). lia.
    + specialize (IH l H). simpl. lia.
Qed.

(** On a consistent grid of the module's dimensions the neighbour query
    returns agents of the store. *)
Lemma feasible_inv g cs :
  GridInv N_ROWS N_COLS g ->
  exists ns, feasible g cs = Ok ns /\ valid_neighbours g ns = true.
Proof.
  intros Inv. induction cs as [|c cs (ns & Hns & Hval)]; simpl.
  - exists []. auto.
  - destruct (feasible_test g c) eqn:Ht; [|eauto].
    unfold feasible_test in Ht. rewrite !andb_true_iff in Ht.
    destruct Ht as [[[[H1 H2] H3] H4] H5].
    apply Z.leb_le in H1, H2. apply Z.ltb_lt in H3, H4.
    apply negb_true_iff in H5.
    assert (Hb : in_bounds N_ROWS N_COLS c) by (unfold in_bounds; lia).
    apply (inv_shape _ _ _ Inv) in Hb as [v Hv].
    rewrite (grid_get_cell _ _ _ Hv), Hns.
    destruct v as [i|].
    + exists (Some i :: ns). split; [reflexivity|]. simpl.
      destruct (inv_cell_agent _ _ _ Inv _ _ Hv) as (a & Ha & _).
      rewrite Ha. exact Hval.
    + apply (inv_free_none _ _ _ Inv), coord_in_elem in Hv. congruence.
Qed.

Lemma fl_small (n : nat) :
  (n <= 8)%nat ->
  float_of_int (Z.of_nat n) = Ok (fl n)
  /\ (0 < n -> float_truediv (fl 0) (fl n) = Ok (SFdiv prec emax (fl 0) (fl n)))%nat
  /\ (0 < n -> forall x, float_truediv x (fl n) = Ok (SFdiv prec emax x (fl n)))%nat.
Proof.
  intros Hn.
  do 9 (destruct n as [|n]; [repeat split; intros; try lia; reflexivity|]).
  lia.
Qed.

Lemma same_language_pure g me w n :
  env w = g ->
  (match n with
   | Some r => match agents g !! r with Some _ => true | None => false end
   | None => false
   end) = true ->
  same_language me n w = (Ok (is_similar g me n), w).
Proof.
  intros <- Hv. destruct n as [k|]; [|discriminate].
  unfold same_language, is_similar, deref, bind, get_env, ret.
  destruct (agents (env w) !! k); [reflexivity|discriminate].
Qed.

Lemma is_unsatified_eval (self : ref) (me : DataScientist) ns w :
  agents (env w) !! self = Some me ->
  get_neighbours (env w) (row me) (col me) = Ok ns ->
  valid_neighbours (env w) ns = true ->
  is_unsatified_with_neighbours self w
  = (Ok (unsatisfied_verdict (env w) me ns), w).
Proof.
  intros Hme Hns Hval.
  pose proof (feasible_length _ _ _ Hns) as Hlen. simpl in Hlen.
  unfold is_unsatified_with_neighbours.
  erewrite (bind_ok (deref self)); cycle 1.
  { unfold deref, bind, get_env. rewrite Hme. reflexivity. }
  unfold bind at 1. unfold get_env at 1.
  unfold bind at 1. unfold lift at 1. rewrite Hns.
  erewrite (bind_ok (filter_m _ _)); cycle 1.
  { apply (filter_m_pure _ (is_similar (env w) me)). intros n Hn.
    apply same_language_pure; [reflexivity|].
    unfold valid_neighbours in Hval. rewrite forallb_forall in Hval.
    apply Hval, list_elem_of_In, Hn. }
  destruct ns as [|n ns']; [reflexivity|].
  set (l := n :: ns') in *.
  assert (Hpos : (0 < length l)%nat) by (subst l; simpl; lia).
  assert (Hsim : (length (List.filter (is_similar (env w) me) l) <= 8)%nat).
  { pose proof (filter_length_le (is_similar (env w) me) l). lia. }
  replace (length l =? 0)%nat with false by (symmetry; apply Nat.eqb_neq; lia).
  destruct (fl_small _ Hsim) as (Hx & _).
  destruct (fl_small (length l) Hlen) as (Hy & _ & Hdiv).
  unfold bind, lift, ret. rewrite Hx, Hy, (Hdiv Hpos). reflexivity.
Qed.

Lemma is_unsatified_ok (self : ref) (me : DataScientist) w :
  GridInv N_ROWS N_COLS (env w) ->
  agents (env w) !! self = Some me ->
  exists b, is_unsatified_with_neighbours self w = (Ok b, w).
Proof.
  intros Inv Hme.
  destruct (feasible_inv (env w) (neighbour_coords (row me) (col me)) Inv)
    as (ns & Hns & Hval).
  eexists. apply (is_unsatified_eval self me ns); assumption.
Qed.

(** C3. When the neighbour query returns agents of the store, the test
    leaves the world alone and answers: false on an empty neighbour list,
    whatever the threshold; otherwise whether the number of neighbours of
    the same language divided by the number of neighbours (both as
    floats) is below the agent's threshold. *)
Theorem unsatisfied_test (self : ref) (me : DataScientist) ns w :
  agents (env w) !! self = Some me ->
  get_neighbours (env w) (row me) (col me) = Ok ns ->
  valid_neighbours (env w) ns = true ->
  is_unsatified_with_neighbours self w
  = (Ok (match ns with
         | [] => false
         | _ => float_lt
                  (SFdiv prec emax
                     (fl (length (List.filter (is_similar (env w) me) ns)))
                     (fl (length ns)))
                  (threshold me)
         end), w).
Proof. intros Hme Hns Hval. apply (is_unsatified_eval self me ns); assumption. Qed.

(** ** Model.run *)



Lemma run_loop_exit fuel max_iter conv iter tr w :
  negb conv && (iter <? max_iter) = false ->
  run_loop fuel max_iter conv iter tr w
  = (Ok (Some {| converged := conv; iteration := iter; trace := tr |}), w).
Proof. intros H. destruct fuel; simpl; rewrite H; reflexivity. Qed.






(** C9. With an int seed the simulation is a function of its
    configuration alone: whatever state the generator was in before and
    whatever the operating system's entropy, the initial placement and
    the whole run (every recorded iteration, its agents and its moved
    count) are the same. *)
Theorem seeded_run_deterministic fuel n_rows n_cols n_empty (seed : Z) max_iter
    os1 os2 g1 g2 :
  simulate fuel os1 n_rows n_cols n_empty (Some seed) max_iter g1
  = simulate fuel os2 n_rows n_cols n_empty (Some seed) max_iter g2.
Proof.
  assert (Hinit : GridWorld_init os1 n_rows n_cols n_empty (Some seed) g1
                  = GridWorld_init os2 n_rows n_cols n_empty (Some seed) g2).
  { unfold GridWorld_init, GridWorld_init_body.
    unfold bind at 1 3. unfold modify_env at 1 3. cbn [env rnd].
    unfold bind at 1 3. unfold get_env at 1 2. cbn [env rnd].
    unfold bind at 1 3. unfold random_seed. cbn [env rnd]. reflexivity. }
  unfold simulate. rewrite Hinit. reflexivity.
Qed.

(** C6 (as the code has it). On a grid of [N_CELLS] cells with between 0
    and [N_CELLS] empty ones, construction returns; the positions are all
    the [rows * cols] positions of the grid in shuffled order; the first
    [rows * cols - n_empty] of them carry the agents, in order of
    creation, agent [i] with id [i]; the agents before index
    [int(n_agents * RATIO_R_TO_PYTHON)], which is [n_agents] halved and
    truncated, have language R, the others Python; the remaining
    shuffled positions are the free list. *)
Theorem init_placement os n_rows n_cols n_empty seed g0 :
  0 <= n_rows -> 0 <= n_cols -> n_rows * n_cols = N_CELLS ->
  0 <= n_empty <= N_CELLS ->
  let coords := shuffled_coords os n_rows n_cols seed in
  let n_ag := n_rows * n_cols - n_empty in
  coords ≡ₚ product (range n_rows) (range n_cols)
  /\ r_prefix n_ag = Ok (n_ag / 2)
  /\ exists g g1,
       GridWorld_init os n_rows n_cols n_empty seed g0 = (Ok g, g1)
       /\ n_agents g = n_ag
       /\ Z.of_nat (length (agents g)) = n_ag
       /\ (forall i a, agents g !! i = Some a ->
             id a = Z.of_nat i
             /\ coords !! i = Some (coordinates a)
             /\ language a = (if Z.of_nat i <? n_ag / 2 then LANG_R
                              else LANG_PYTHON))
       /\ empty_cells g = drop (Z.to_nat n_ag) coords.
Proof.
  intros Hr Hc Hcells Hn coords n_ag.
  split; [apply shuffled_coords_Permutation|].
  assert (Hnag : n_ag = N_CELLS - n_empty) by (unfold n_ag; lia).
  split; [apply r_prefix_small; lia|].
  destruct (GridWorld_init_ok os n_rows n_cols n_empty seed g0 Hn)
    as (g & g1 & Hinit & Hna & Hag & Hfree & _); [lia|].
  fold coords in Hag, Hfree. rewrite <- Hnag in *.
  pose proof (shuffled_coords_length os n_rows n_cols seed) as Hlen.
  fold coords in Hlen.
  exists g, g1. split; [exact Hinit|]. split; [exact Hna|]. split.
  { rewrite Hag, make_agents_length, length_take. lia. }
  split; [|exact Hfree].
  intros i a Ha. rewrite Hag in Ha.
  pose proof (lookup_lt_Some _ _ _ Ha) as Hlt.
  rewrite make_agents_length in Hlt.
  destruct (lookup_lt_is_Some_2 (take (Z.to_nat n_ag) coords) i Hlt) as [c Hci].
  rewrite (make_agents_lookup _ _ _ _ _ Hci) in Ha. injection Ha as <-.
  simpl. split; [reflexivity|]. split; [|reflexivity].
  apply lookup_take_Some in Hci as [Hci _]. rewrite Hci.
  destruct c; reflexivity.
Qed.

(** ** The bounds test of get_neighbours on a narrow grid *)

Lemma feasible_cons_raise g c cs e :
  (feasible_test g c = true -> is_ok (grid_get (grid g) c.1 c.2) = true) ->
  feasible g cs = Raise e ->
  feasible g (c :: cs) = Raise e.
Proof.
  intros Hok Hcs. simpl. destruct (feasible_test g c); [|exact Hcs].
  specialize (Hok eq_refl). destruct (grid_get _ _ _); [|discriminate].
  rewrite Hcs. reflexivity.
Qed.

(** On a consistent grid with fewer columns than [N_COLS], the query at
    a position of the last column, not in the first row, raises
    [IndexError], whatever the seed: the position to the upper right
    passes the test against [N_COLS] and the row has no such column. *)
Lemma get_neighbours_narrow_grid n_rows n_cols g r :
  GridInv n_rows n_cols g ->
  0 < n_cols < N_COLS ->
  1 <= r < n_rows -> r <= N_ROWS ->
  get_neighbours g r (n_cols - 1) = Raise IndexError.
Proof.
  intros Inv Hc Hr HrN.
  assert (Hin : forall c, feasible_test g c = true -> c.1 = r - 1 ->
                          c.2 < n_cols ->
                          is_ok (grid_get (grid g) c.1 c.2) = true).
  { intros c Ht H1 H2. unfold feasible_test in Ht.
    rewrite !andb_true_iff in Ht. destruct Ht as [[[[T1 T2] _] _] _].
    apply Z.leb_le in T1, T2.
    destruct (proj1 (inv_shape _ _ _ Inv c)) as [v Hv];
      [unfold in_bounds; lia|].
    rewrite (grid_get_cell _ _ _ Hv). reflexivity. }
  unfold get_neighbours, neighbour_coords.
  apply feasible_cons_raise; [intros Ht; apply Hin; simpl; auto; lia|].
  apply feasible_cons_raise; [intros Ht; apply Hin; simpl; auto; lia|].
  replace (n_cols - 1 + 1) with n_cols by lia.
  assert (Hout : ~ in_bounds n_rows n_cols (r - 1, n_cols))
    by (unfold in_bounds; simpl; lia).
  assert (Hnone : cell (grid g) (r - 1, n_cols) = None).
  { destruct (cell (grid g) (r - 1, n_cols)) eqn:E; [|reflexivity].
    exfalso. apply Hout, (inv_shape _ _ _ Inv). eauto. }
  assert (Htest : feasible_test g (r - 1, n_cols) = true).
  { unfold feasible_test. simpl. rewrite !andb_true_iff.
    repeat split; try (apply Z.leb_le; lia); try (apply Z.ltb_lt; lia).
    apply negb_true_iff. destruct (coord_in _ _) eqn:E; [|reflexivity].
    apply coord_in_elem, (inv_free_none _ _ _ Inv) in E. congruence. }
  simpl. rewrite Htest.
  destruct (proj1 (inv_shape _ _ _ Inv (r - 1, 0))) as [v Hv];
    [unfold in_bounds; simpl; lia|].
  apply cell_Some_inv in Hv as (_ & _ & rw & Hrw & _). simpl in Hrw.
  rewrite (cell_intro _ _ rw) in Hnone by (simpl; auto; lia).
  simpl in Hnone. apply lookup_ge_None in Hnone.
  unfold grid_get. simpl.
  rewrite <- (Z2Nat.id (r - 1)) by lia. rewrite (py_getitem_lookup _ _ _ Hrw).
  rewrite py_getitem_above by lia. reflexivity.
Qed.

(** C7. The failing input, for every generator and seed: the 3 x 3
    world with 5 agents is constructed, (2, 2) is one of its positions,
    and the neighbour query there raises [IndexError] instead of
    leaving out the positions beyond the grid's own bounds. *)
Theorem get_neighbours_small_grid os seed g0 :
  exists g g1,
    GridWorld_init os 3 3 2495 seed g0 = (Ok g, g1)
    /\ is_Some (cell (grid g) (2, 2))
    /\ get_neighbours g 2 2 = Raise IndexError.
Proof.
  destruct (GridWorld_init_ok os 3 3 2495 seed g0)
    as (g & g1 & Hinit & _ & _ & _ & Inv);
    [split; [lia | discriminate] | discriminate |].
  change (Z.max 0 3) with 3 in Inv.
  exists g, g1. split; [exact Hinit|]. split.
  - apply (inv_shape _ _ _ Inv). unfold in_bounds. simpl. lia.
  - apply (get_neighbours_narrow_grid 3 3 g 2 Inv); [split; [lia|reflexivity] | lia | discriminate].
Qed.

(** ** The run on a grid with fewer columns than [N_COLS] *)

Lemma grid_get_raises gr r c e : grid_get gr r c = Raise e -> e = IndexError.
Proof.
  unfold grid_get, py_getitem.
  destruct (py_index (length gr) r) as [i|]; [|congruence].
  destruct (gr !! i) as [rw|]; [|congruence].
  destruct (py_index (length rw) c) as [j|]; [|congruence].
  destruct (rw !! j); congruence.
Qed.

Lemma feasible_raises g cs e : feasible g cs = Raise e -> e = IndexError.
Proof.
  induction cs as [|c cs IH]; simpl; [discriminate|].
  destruct (feasible_test g c); [|exact IH].
  destruct (grid_get (grid g) c.1 c.2) eqn:Hget.
  - destruct (feasible g cs); [discriminate|]. intros [= <-]. apply IH. reflexivity.
  - intros [= <-]. eapply grid_get_raises, Hget.
Qed.

Lemma grid_get_cell_inv (gr : list (list (option ref))) (c : coord) v :
  0 <= c.1 -> 0 <= c.2 -> grid_get gr c.1 c.2 = Ok v -> cell gr c = Some v.
Proof.
  intros H1 H2. unfold grid_get, py_getitem, py_index, cell.
  replace (0 <=? c.1) with true by (symmetry; apply Z.leb_le; exact H1).
  replace (0 <=? c.2) with true by (symmetry; apply Z.leb_le; exact H2).
  simpl. destruct (c.1 <? Z.of_nat (length gr)) eqn:E1.
  - destruct (gr !! Z.to_nat c.1) as [rw|]; [|discriminate].
    destruct (c.2 <? Z.of_nat (length rw)) eqn:E2.
    + destruct (rw !! Z.to_nat c.2); [congruence|discriminate].
    + apply Z.ltb_ge in E2.
      replace ((- Z.of_nat (length rw) <=? c.2) && (c.2 <? 0)) with false
        by (symmetry; apply andb_false_iff; right; apply Z.ltb_ge; lia).
      discriminate.
  - apply Z.ltb_ge in E1.
    replace ((- Z.of_nat (length gr) <=? c.1) && (c.1 <? 0)) with false
      by (symmetry; apply andb_false_iff; right; apply Z.ltb_ge; lia).
    discriminate.
Qed.

(** On a consistent grid of any dimensions, what the neighbour query
    returns are agents of the store. *)
Lemma feasible_valid n_rows n_cols g cs ns :
  GridInv n_rows n_cols g ->
  feasible g cs = Ok ns -> valid_neighbours g ns = true.
Proof.
  intros Inv. revert ns. induction cs as [|c cs IH]; intros ns; simpl.
  - intros [= <-]. reflexivity.
  - destruct (feasible_test g c) eqn:Ht; [|apply IH].
    destruct (grid_get (grid g) c.1 c.2) as [v|] eqn:Hget; [|discriminate].
    destruct (feasible g cs) as [vs|]; [|discriminate]. intros [= <-].
    unfold feasible_test in Ht. rewrite !andb_true_iff in Ht.
    destruct Ht as [[[[H1 H2] _] _] H5].
    apply Z.leb_le in H1, H2. apply negb_true_iff in H5.
    apply grid_get_cell_inv in Hget; [|assumption..].
    simpl. rewrite (IH vs eq_refl), andb_true_r.
    destruct v as [i|].
    + destruct (inv_cell_agent _ _ _ Inv _ _ Hget) as (a & -> & _). reflexivity.
    + apply (inv_free_none _ _ _ Inv), coord_in_elem in Hget. congruence.
Qed.

(** On a consistent grid of any dimensions the satisfaction test of an
    agent of the store answers, or fails with the [IndexError] of the
    neighbour query; the world is as before. *)
Lemma is_unsatified_cases n_rows n_cols (self : ref) (me : DataScientist) w :
  GridInv n_rows n_cols (env w) ->
  agents (env w) !! self = Some me ->
  (exists b, is_unsatified_with_neighbours self w = (Ok b, w))
  \/ (get_neighbours (env w) (row me) (col me) = Raise IndexError
      /\ is_unsatified_with_neighbours self w = (Raise IndexError, w)).
Proof.
  intros Inv Hme.
  destruct (get_neighbours (env w) (row me) (col me)) as [ns|e] eqn:Hns.
  - left. eexists. apply (is_unsatified_eval self me ns); [assumption..|].
    eapply feasible_valid; eassumption.
  - right. assert (e = IndexError) as -> by (eapply feasible_raises, Hns).
    split; [reflexivity|].
    unfold is_unsatified_with_neighbours.
    erewrite (bind_ok (deref self)); cycle 1.
    { unfold deref, bind, get_env. rewrite Hme. reflexivity. }
    unfold bind at 1. unfold get_env at 1.
    unfold bind at 1. unfold lift at 1. rewrite Hns. reflexivity.
Qed.

Lemma filter_m_raise {A} (p : A -> M bool) (l : list A) w e :
  (forall x, x ∈ l -> (exists b, p x w = (Ok b, w)) \/ p x w = (Raise e, w)) ->
  (exists x, x ∈ l /\ p x w = (Raise e, w)) ->
  filter_m p l w = (Raise e, w).
Proof.
  induction l as [|y l IH]; intros Hall (x & Hx & Hraise).
  - inversion Hx.
  - simpl. destruct (Hall y (list_elem_of_here _ _)) as [[b Hb]|Hb].
    + rewrite (bind_ok _ _ _ _ _ Hb). apply bind_raise. apply IH.
      * intros z Hz. apply Hall, list_elem_of_further, Hz.
      * apply elem_of_cons in Hx as [->|Hx]; [congruence|eauto].
    + apply bind_raise, Hb.
Qed.

(** More positions than free cells: one of the positions is occupied. *)
Lemma occupied_among n_rows n_cols g (cs : list coord) :
  GridInv n_rows n_cols g ->
  NoDup cs ->
  (forall c, c ∈ cs -> in_bounds n_rows n_cols c) ->
  (length (empty_cells g) < length cs)%nat ->
  exists c i a, c ∈ cs /\ agents g !! i = Some a /\ coordinates a = c.
Proof.
  intros Inv Hnd Hin Hlt.
  destruct (decide (Forall (fun c => c ∈ empty_cells g) cs)) as [Hall|Hnot].
  - rewrite Forall_forall in Hall.
    pose proof (submseteq_length _ _ (NoDup_submseteq _ _ Hnd Hall)). lia.
  - apply not_Forall_Exists in Hnot; [|intros c; apply _].
    apply Exists_exists in Hnot as (c & Hc & Hfree). simpl in Hfree.
    destruct (proj1 (inv_shape _ _ _ Inv c) (Hin c Hc)) as [[i|] Hv].
    + destruct (inv_cell_agent _ _ _ Inv _ _ Hv) as (a & Ha & Hca). eauto 6.
    + exfalso. apply Hfree, (inv_free_none _ _ _ Inv), Hv.
Qed.

(** On a consistent grid with fewer columns than [N_COLS] and fewer free
    cells than the last column has positions in rows 1 to [N_ROWS], the
    scan fails: some agent sits in such a position, and the neighbour
    query there indexes a row beyond its end. *)
Lemma scan_narrow_grid n_rows n_cols w :
  GridInv n_rows n_cols (env w) ->
  0 < n_cols < N_COLS ->
  Z.of_nat (length (empty_cells (env w))) < Z.min (n_rows - 1) N_ROWS ->
  scan w = (Raise IndexError, w).
Proof.
  intros Inv Hc Hfree.
  set (m := Z.min (n_rows - 1) N_ROWS) in *.
  set (cs := map (fun r => (r, n_cols - 1)) (seqZ 1 m)).
  destruct (occupied_among n_rows n_cols (env w) cs Inv)
    as (c & i & a & Hcs & Ha & Hca).
  { apply NoDup_fmap_2; [|apply NoDup_seqZ]. intros x y [= ?]. assumption. }
  { intros c Hcin. apply list_elem_of_fmap in Hcin as (r & -> & Hr).
    apply elem_of_seqZ in Hr. unfold in_bounds. simpl. lia. }
  { unfold cs. rewrite length_map, length_seqZ. lia. }
  apply list_elem_of_fmap in Hcs as (r & -> & Hr). apply elem_of_seqZ in Hr.
  assert (Hrow : row a = r) by (injection Hca; auto).
  assert (Hcol : col a = n_cols - 1) by (injection Hca; auto).
  unfold scan, bind, get_env. apply filter_m_raise.
  - intros j Hj. apply elem_of_seq in Hj.
    destruct (lookup_lt_is_Some_2 (agents (env w)) j) as [b Hb]; [lia|].
    destruct (is_unsatified_cases _ _ j b w Inv Hb) as [H|[_ H]]; auto.
  - exists i. split; [apply elem_of_seq; apply lookup_lt_Some in Ha; lia|].
    destruct (is_unsatified_cases _ _ i a w Inv Ha) as [[b Hb]|[_ H]]; [|exact H].
    exfalso.
    assert (Hraise : get_neighbours (env w) (row a) (col a) = Raise IndexError).
    { rewrite Hrow, Hcol.
      apply (get_neighbours_narrow_grid n_rows n_cols); [assumption|lia|lia|lia]. }
    unfold is_unsatified_with_neighbours in Hb.
    erewrite (bind_ok (deref i)) in Hb; cycle 1.
    { unfold deref, bind, get_env. rewrite Ha. reflexivity. }
    unfold bind at 1 in Hb. unfold get_env at 1 in Hb.
    unfold bind at 1 in Hb. unfold lift at 1 in Hb. rewrite Hraise in Hb.
    discriminate.
Qed.

Lemma run_narrow_grid n_rows n_cols fuel max_iter w :
  GridInv n_rows n_cols (env w) ->
  0 < n_cols < N_COLS ->
  Z.of_nat (length (empty_cells (env w))) < Z.min (n_rows - 1) N_ROWS ->
  0 < max_iter ->
  run (S fuel) max_iter w = (Raise IndexError, w).
Proof.
  intros Inv Hc Hfree Hmax. unfold run. simpl.
  replace (0 <? max_iter) with true by (symmetry; apply Z.ltb_lt; exact Hmax).
  apply bind_raise. eapply scan_narrow_grid; eassumption.
Qed.

(** C8. The failing input, for every generator and seed: the grid of
    100 rows and 25 columns with 40 empty cells (2500 positions, 2460
    agents) is constructed, and the run on it does not end by convergence
    or at the cap: its first scan fails with the [IndexError] of the
    neighbour query, which tests the positions against [N_COLS] instead
    of the grid's own 25 columns. *)
Theorem run_narrow_grid_fails os seed g0 :
  exists g g1,
    GridWorld_init os 100 25 40 seed g0 = (Ok g, g1)
    /\ length (agents g) = 2460%nat
    /\ length (empty_cells g) = 40%nat
    /\ forall fuel,
         run (S fuel) MAX_ITER {| env := g; rnd := g1 |}
         = (Raise IndexError, {| env := g; rnd := g1 |}).
Proof.
  destruct (GridWorld_init_ok os 100 25 40 seed g0)
    as (g & g1 & Hinit & _ & Hag & Hfree & Inv);
    [split; [lia | discriminate] | discriminate |].
  change (Z.max 0 100) with 100 in Inv. change (Z.max 0 25) with 25 in Inv.
  pose proof (shuffled_coords_length os 100 25 seed) as Hlen.
  change (Z.max 0 100 * Z.max 0 25) with 2500 in Hlen.
  change (Z.to_nat (N_CELLS - 40)) with 2460%nat in Hag, Hfree.
  assert (Hnag : length (agents g) = 2460%nat).
  { rewrite Hag, make_agents_length, length_take. lia. }
  assert (Hnfree : length (empty_cells g) = 40%nat).
  { rewrite Hfree, length_drop. lia. }
  exists g, g1. split; [exact Hinit|]. split; [exact Hnag|].
  split; [exact Hnfree|]. intros fuel.
  apply (run_narrow_grid 100 25); cbn [env]; [exact Inv | split; [lia|reflexivity] | | reflexivity].
  rewrite Hnfree. reflexivity.
Qed.

(** * Further properties *)

(** ** What the operations leave alone *)

Lemma preserves_ret {A} (P : World -> World -> Prop) `{!Reflexive P} (a : A) :
  preserves P (ret a).
Proof. intros w r w' [= _ <-]. reflexivity. Qed.

Lemma preserves_raise {A} (P : World -> World -> Prop) `{!Reflexive P} e :
  preserves P (@raise _ A e).
Proof. intros w r w' [= _ <-]. reflexivity. Qed.

Lemma preserves_lift {A} (P : World -> World -> Prop) `{!Reflexive P}
    (x : result A) :
  preserves P (lift x).
Proof. intros w r w' [= _ <-]. reflexivity. Qed.

Lemma preserves_get_env (P : World -> World -> Prop) `{!Reflexive P} :
  preserves P get_env.
Proof. intros w r w' [= _ <-]. reflexivity. Qed.

Lemma preserves_bind {A B} (P : World -> World -> Prop) `{!Transitive P}
    (m : M A) (k : A -> M B) :
  preserves P m -> (forall a, preserves P (k a)) -> preserves P (bind m k).
Proof.
  intros Hm Hk w r w' H. unfold bind in H.
  destruct (m w) as [[a|e] w1] eqn:Hmw.
  - transitivity w1; [eapply Hm, Hmw | eapply Hk, H].
  - injection H as _ <-. eapply Hm, Hmw.
Qed.

Lemma preserves_for_each {A} (P : World -> World -> Prop)
    `{!Reflexive P, !Transitive P} (body : A -> M unit) (l : list A) :
  (forall x, preserves P (body x)) -> preserves P (for_each l body).
Proof.
  intros Hb. induction l as [|x l IH]; simpl.
  - apply preserves_ret; assumption.
  - apply preserves_bind; auto.
Qed.

Lemma preserves_filter_m {A} (P : World -> World -> Prop)
    `{!Reflexive P, !Transitive P} (p : A -> M bool) (l : list A) :
  (forall x, preserves P (p x)) -> preserves P (filter_m p l).
Proof.
  intros Hp. induction l as [|x l IH]; simpl.
  - apply preserves_ret; assumption.
  - apply preserves_bind; [assumption | auto |]. intros b.
    apply preserves_bind; [assumption | exact IH |]. intros r.
    apply preserves_ret; assumption.
Qed.

#[local] Instance same_world_refl : Reflexive same_world.
Proof. intros w. reflexivity. Qed.

#[local] Instance same_world_trans : Transitive same_world.
Proof. intros w1 w2 w3 H1 H2. unfold same_world in *. congruence. Qed.

#[local] Instance same_static_refl : Reflexive same_static.
Proof. intros w. reflexivity. Qed.

#[local] Instance same_static_trans : Transitive same_static.
Proof. intros w1 w2 w3 H1 H2. unfold same_static in *. congruence. Qed.

#[local] Instance same_agents_and_free_refl : Reflexive same_agents_and_free.
Proof. intros w. split; reflexivity. Qed.

#[local] Instance same_agents_and_free_trans : Transitive same_agents_and_free.
Proof. intros w1 w2 w3 [H1 H2] [H3 H4]. split; congruence. Qed.

Lemma deref_pure r : preserves same_world (deref r).
Proof.
  unfold deref. apply preserves_bind; [apply _ | apply preserves_get_env; apply _|].
  intros g. destruct (agents g !! r).
  - apply preserves_ret. apply _.
  - apply preserves_raise. apply _.
Qed.

Lemma same_language_world me n : preserves same_world (same_language me n).
Proof.
  destruct n as [r|]; simpl.
  - apply preserves_bind; [apply _ | apply deref_pure |].
    intros a. apply preserves_ret. apply _.
  - apply preserves_raise. apply _.
Qed.

(** The satisfaction test reads the world and never writes to it, also
    when it raises. *)
Lemma is_unsatified_pure self :
  preserves same_world (is_unsatified_with_neighbours self).
Proof.
  unfold is_unsatified_with_neighbours.
  apply preserves_bind; [apply _ | apply deref_pure |]. intros me.
  apply preserves_bind; [apply _ | apply preserves_get_env; apply _ |]. intros g.
  apply preserves_bind; [apply _ | apply preserves_lift; apply _ |]. intros ns.
  apply preserves_bind; [apply _ | |].
  { apply preserves_filter_m; try apply _. apply same_language_world. }
  intros sim. destruct (_ =? _)%nat; [apply preserves_ret; apply _|].
  repeat (apply preserves_bind;
          [apply _ | apply preserves_lift; apply _ | intros ?]).
  apply preserves_ret. apply _.
Qed.

Lemma scan_pure : preserves same_world scan.
Proof.
  unfold scan. apply preserves_bind; [apply _ | apply preserves_get_env; apply _|].
  intros g. apply preserves_filter_m; try apply _. apply is_unsatified_pure.
Qed.

Lemma report_pure iter n : preserves same_world (report iter n).
Proof.
  unfold report. destruct (_ =? 0); [|apply preserves_ret; apply _].
  apply preserves_bind; [apply _ | apply preserves_get_env; apply _|].
  intros g. destruct (_ =? _)%nat; [apply preserves_raise | apply preserves_ret];
    apply _.
Qed.

Lemma preserves_weaken {A} (P Q : World -> World -> Prop) (m : M A) :
  (forall w w', P w w' -> Q w w') -> preserves P m -> preserves Q m.
Proof. intros HPQ Hm w r w' H. eapply HPQ, Hm, H. Qed.

Lemma same_world_static w w' : same_world w w' -> same_static w w'.
Proof. intros ->. reflexivity. Qed.

Lemma grid_setitem_raise r c v w e w' :
  grid_setitem r c v w = (Raise e, w') -> e = IndexError /\ w' = w.
Proof.
  unfold grid_setitem, bind, get_env, lift, modify_env, grid_set.
  destruct (py_index _ r); [|intros [= <- <-]; auto].
  destruct (grid (env w) !! _); [|intros [= <- <-]; auto].
  destruct (py_index _ c); [discriminate|intros [= <- <-]; auto].
Qed.

Lemma grid_setitem_static r c v : preserves same_static (grid_setitem r c v).
Proof.
  intros w [[]|e] w' H.
  - apply grid_setitem_agents in H as [H _]. unfold same_static. rewrite H.
    reflexivity.
  - apply grid_setitem_raise in H as [_ ->]. reflexivity.
Qed.

Lemma get_random_empty_cell_env w r w' :
  get_random_empty_cell w = (r, w') -> env w' = env w.
Proof.
  unfold get_random_empty_cell, bind, get_env, random_choice.
  destruct (empty_cells (env w)) as [|x l]; [intros [= _ <-]; reflexivity|].
  unfold bind, with_rng, lift. destruct (randbelow _ _) as [j g'].
  intros [= _ <-]. reflexivity.
Qed.

Lemma with_coordinates_static a c : static (with_coordinates a c) = static a.
Proof. reflexivity. Qed.

Lemma set_coordinates_static agent c : preserves same_static (set_coordinates agent c).
Proof.
  intros w r w'. unfold set_coordinates, deref, bind, get_env, modify_env, ret, raise.
  destruct (agents (env w) !! agent) as [a|] eqn:Ha; intros [= _ <-];
    [|reflexivity].
  unfold same_static. simpl. apply list_eq. intros i.
  rewrite !list_lookup_fmap.
  destruct (decide (i = agent)) as [->|Hne].
  - rewrite list_lookup_insert_eq by (eapply lookup_lt_Some, Ha).
    rewrite Ha. reflexivity.
  - rewrite list_lookup_insert_ne by congruence. reflexivity.
Qed.

(** [relocate] changes no agent's id, language or threshold and keeps
    the number and order of the agents, on any world and whether it
    returns or raises. *)
Lemma relocate_static agent : preserves same_static (relocate agent).
Proof.
  unfold relocate. apply preserves_bind; [apply _ | |].
  { intros w r w' H. apply get_random_empty_cell_env in H.
    unfold same_static. rewrite H. reflexivity. }
  intros new_loc. apply preserves_bind; [apply _ | |].
  { eapply preserves_weaken; [apply same_world_static | apply deref_pure]. }
  intros a. apply preserves_bind; [apply _ | apply grid_setitem_static |].
  intros _. apply preserves_bind; [apply _ | apply grid_setitem_static |].
  intros _. apply preserves_bind; [apply _ | apply set_coordinates_static |].
  intros _. apply preserves_bind; [apply _ | |].
  { intros w r w'. unfold empty_cells_remove, bind, get_env, modify_env, raise.
    destruct (list_remove _ _); intros [= _ <-]; reflexivity. }
  intros _ w r w'. unfold empty_cells_append, modify_env.
  intros [= _ <-]. reflexivity.
Qed.

Lemma run_loop_static (fuel : nat) :
  forall max_iter conv iter tr w r w',
  run_loop fuel max_iter conv iter tr w = (r, w') ->
  same_static w w'
  /\ (forall res, r = Ok (Some res) ->
        forall s, s ∈ trace res ->
          s ∈ tr \/ map static s.1.2 = map static (agents (env w))).
Proof.
  induction fuel as [|fuel IH]; intros max_iter conv iter tr w r w' H.
  - simpl in H. destruct (negb conv && (iter <? max_iter));
      injection H as <- <-; (split; [reflexivity|]); intros res [= <-].
    simpl. auto.
  - simpl in H. destruct (negb conv && (iter <? max_iter)).
    + unfold bind at 1 in H.
      destruct (scan w) as [[to_move|e] w1] eqn:Hscan;
        pose proof (scan_pure _ _ _ Hscan) as Hw1; unfold same_world in Hw1;
        subst w1; [|injection H as <- <-; split; [reflexivity|discriminate]].
      unfold bind at 1 in H.
      destruct (for_each to_move relocate w) as [[[]|e] w2] eqn:Hmove;
        pose proof (preserves_for_each same_static relocate to_move
                      relocate_static _ _ _ Hmove) as Hs2;
        [|injection H as <- <-; split; [exact Hs2|discriminate]].
      unfold bind at 1 in H. unfold get_env at 1 in H.
      unfold bind at 1 in H.
      destruct (report (iter + 1) (length to_move) w2) as [[[]|e] w3] eqn:Hrep;
        pose proof (report_pure _ _ _ _ _ Hrep) as Hw3; unfold same_world in Hw3;
        subst w3; [|injection H as <- <-; split; [exact Hs2|discriminate]].
      destruct (IH _ _ _ _ _ _ _ H) as [Hs3 Htr]. split.
      * unfold same_static in *. congruence.
      * intros res Hres s Hs. destruct (Htr res Hres s Hs) as [Hin|Heq].
        -- apply elem_of_app in Hin as [Hin|Hin]; [auto|].
           apply list_elem_of_singleton in Hin. subst s. right. exact Hs2.
        -- right. unfold same_static in Hs2. congruence.
    + injection H as <- <-. split; [reflexivity|]. intros res [= <-]. simpl. auto.
Qed.

(** X3. A run changes positions only: every recorded iteration and the
    final world hold the agents of the start, in the same order, with
    their ids, languages and thresholds. *)
Theorem run_keeps_agents fuel max_iter w res :
  (run fuel max_iter w).1 = Ok (Some res) ->
  (forall s, s ∈ trace res ->
     map static s.1.2 = map static (agents (env w)))
  /\ map static (agents (env (run fuel max_iter w).2))
     = map static (agents (env w)).
Proof.
  intros H. unfold run in *.
  destruct (run_loop fuel max_iter false 0 [] w) as [r w'] eqn:Hrun.
  simpl in H. subst r.
  destruct (run_loop_static _ _ _ _ _ _ _ _ Hrun) as [Hs Htr]. split.
  - intros s Hin. destruct (Htr res eq_refl s Hin) as [Hnil|Heq]; [|exact Heq].
    inversion Hnil.
  - exact Hs.
Qed.

(** X8. A failing [relocate] fails with [IndexError] and before anything
    is written to the agent or to the free list: [list.remove] always
    finds the drawn cell, so no [ValueError] can arise. *)
Theorem relocate_failure (agent : ref) (a : DataScientist) w e :
  agents (env w) !! agent = Some a ->
  (relocate agent w).1 = Raise e ->
  e = IndexError
  /\ agents (env (relocate agent w).2) = agents (env w)
  /\ empty_cells (env (relocate agent w).2) = empty_cells (env w).
Proof.
  intros Ha H. destruct (relocate agent w) as [r w'] eqn:Hrel.
  simpl in *. subst r.
  destruct (empty_cells (env w)) as [|x l] eqn:Hfree.
  { rewrite (relocate_empty _ _ Hfree) in Hrel. injection Hrel as <- <-.
    rewrite Hfree. auto. }
  destruct (random_choice_ok (empty_cells (env w)) w) as (new_loc & g' & Hch & Hin);
    [rewrite Hfree; discriminate|].
  rewrite <- Hfree.
  set (w1 := {| env := env w; rnd := g' |}) in *.
  assert (Hrc : get_random_empty_cell w = (Ok new_loc, w1)) by exact Hch.
  unfold relocate in Hrel. rewrite (bind_ok _ _ _ _ _ Hrc) in Hrel.
  erewrite (bind_ok (deref agent)) in Hrel; cycle 1.
  { unfold deref, bind, get_env. simpl. rewrite Ha. reflexivity. }
  unfold bind at 1 in Hrel.
  destruct (grid_setitem new_loc.1 new_loc.2 (Some agent) w1) as [[[]|e1] w2] eqn:Hs1.
  2:{ apply grid_setitem_raise in Hs1 as [-> ->]. injection Hrel as <- <-.
      repeat split; reflexivity. }
  apply grid_setitem_agents in Hs1 as [Hag1 Hfr1].
  unfold bind at 1 in Hrel.
  destruct (grid_setitem (coordinates a).1 (coordinates a).2 None w2) as [[[]|e2] w3] eqn:Hs2.
  2:{ apply grid_setitem_raise in Hs2 as [-> ->]. injection Hrel as <- <-.
      repeat split; [exact Hag1 | exact Hfr1]. }
  apply grid_setitem_agents in Hs2 as [Hag2 Hfr2].
  assert (Ha3 : agents (env w3) !! agent = Some a) by (rewrite Hag2, Hag1; exact Ha).
  assert (Hin3 : new_loc ∈ empty_cells (env w3)) by (rewrite Hfr2, Hfr1; exact Hin).
  destruct (list_remove_elem _ _ Hin3) as [l' Hl'].
  unfold set_coordinates, deref, empty_cells_remove, empty_cells_append,
    bind, get_env, modify_env, ret in Hrel. rewrite Ha3 in Hrel. simpl in Hrel.
  rewrite Hl' in Hrel. discriminate.
Qed.

(** ** Convergence *)

Lemma filter_m_nil {A} (p : A -> M bool) (l : list A) w w' :
  (forall x, preserves same_world (p x)) ->
  filter_m p l w = (Ok [], w') ->
  forall x, x ∈ l -> p x w = (Ok false, w).
Proof.
  intros Hp. induction l as [|y l IH]; intros H x Hx; [inversion Hx|].
  simpl in H. unfold bind at 1 in H.
  destruct (p y w) as [[b|e] w1] eqn:Hy; [|discriminate].
  pose proof (Hp _ _ _ _ Hy) as Hw1. unfold same_world in Hw1. subst w1.
  unfold bind at 1 in H.
  destruct (filter_m p l w) as [[r|e] w2] eqn:Hl; [|discriminate].
  pose proof (preserves_filter_m same_world p l Hp _ _ _ Hl) as Hw2.
  unfold same_world in Hw2. subst w2.
  unfold ret in H. injection H as H <-.
  destruct b; [discriminate|]. subst r.
  apply elem_of_cons in Hx as [->|Hx]; [exact Hy | apply IH; auto].
Qed.

Lemma scan_nil w w' : scan w = (Ok [], w') -> all_satisfied w.
Proof.
  unfold scan, bind, get_env. intros H r Hr.
  apply (filter_m_nil _ _ _ _ is_unsatified_pure H).
  apply elem_of_seq. lia.
Qed.

Lemma run_loop_converged (fuel : nat) :
  forall max_iter conv iter tr w res w',
  run_loop fuel max_iter conv iter tr w = (Ok (Some res), w') ->
  (conv = true -> all_satisfied w) ->
  converged res = true -> all_satisfied w'.
Proof.
  induction fuel as [|fuel IH]; intros max_iter conv iter tr w res w' H Hsat Hconv.
  - simpl in H. destruct (negb conv && (iter <? max_iter)); [discriminate|].
    injection H as <- <-. apply Hsat, Hconv.
  - simpl in H. destruct (negb conv && (iter <? max_iter)).
    + unfold bind at 1 in H.
      destruct (scan w) as [[to_move|e] w1] eqn:Hscan; [|discriminate].
      pose proof (scan_pure _ _ _ Hscan) as Hw1. unfold same_world in Hw1.
      subst w1. unfold bind at 1 in H.
      destruct (for_each to_move relocate w) as [[[]|e] w2] eqn:Hmove;
        [|discriminate].
      unfold bind at 1 in H. unfold get_env at 1 in H. unfold bind at 1 in H.
      destruct (report (iter + 1) (length to_move) w2) as [[[]|e] w3] eqn:Hrep;
        [|discriminate].
      pose proof (report_pure _ _ _ _ _ Hrep) as Hw3. unfold same_world in Hw3.
      subst w3. eapply IH; [exact H | | exact Hconv].
      destruct to_move as [|r l]; [|discriminate].
      intros _. simpl in Hmove. injection Hmove as <-.
      eapply scan_nil, Hscan.
    + injection H as <- <-. apply Hsat, Hconv.
Qed.

(** X5. A run that reports convergence ends in a world in which the
    satisfaction test answers [False] for every agent. *)
Theorem converged_all_satisfied fuel max_iter w res :
  (run fuel max_iter w).1 = Ok (Some res) ->
  converged res = true ->
  all_satisfied (run fuel max_iter w).2.
Proof.
  intros H Hconv. unfold run in *.
  destruct (run_loop fuel max_iter false 0 [] w) as [r w'] eqn:Hrun.
  simpl in *. subst r.
  eapply run_loop_converged; [exact Hrun | discriminate | exact Hconv].
Qed.

(** ** get_neighbours on a grid of the module's dimensions *)

Lemma feasible_occupants g cs :
  GridInv N_ROWS N_COLS g ->
  feasible g cs = Ok (occupants (grid g) cs).
Proof.
  intros Inv. induction cs as [|c cs IH]; simpl; [reflexivity|].
  destruct (feasible_test g c) eqn:Ht.
  - unfold feasible_test in Ht. rewrite !andb_true_iff in Ht.
    destruct Ht as [[[[H1 H2] H3] H4] H5].
    apply Z.leb_le in H1, H2. apply Z.ltb_lt in H3, H4.
    apply negb_true_iff in H5.
    assert (Hb : in_bounds N_ROWS N_COLS c) by (unfold in_bounds; lia).
    apply (inv_shape _ _ _ Inv) in Hb as [v Hv].
    rewrite (grid_get_cell _ _ _ Hv), IH, Hv. destruct v as [i|]; [reflexivity|].
    apply (inv_free_none _ _ _ Inv), coord_in_elem in Hv. congruence.
  - rewrite IH. destruct (cell (grid g) c) as [[i|]|] eqn:Hv; try reflexivity.
    exfalso.
    assert (Hb : in_bounds N_ROWS N_COLS c)
      by (apply (inv_shape _ _ _ Inv); eauto).
    assert (Hnf : coord_in c (empty_cells g) = false).
    { destruct (coord_in c (empty_cells g)) eqn:E; [|reflexivity].
      apply coord_in_elem, (inv_free_none _ _ _ Inv) in E. congruence. }
    unfold feasible_test in Ht. rewrite Hnf in Ht. destruct Hb as [[? ?] [? ?]].
    rewrite !(proj2 (Z.leb_le _ _)), !(proj2 (Z.ltb_lt _ _)) in Ht by assumption.
    discriminate.
Qed.

Lemma occupants_elem gr cs n :
  n ∈ occupants gr cs <-> exists i c, n = Some i /\ c ∈ cs /\ cell gr c = Some (Some i).
Proof.
  induction cs as [|c cs IH]; simpl.
  - split; [intros H; inversion H | intros (i & c & _ & H & _); inversion H].
  - destruct (cell gr c) as [[i|]|] eqn:Hc.
    + rewrite elem_of_cons, IH. split.
      * intros [->|(j & c' & -> & Hin & Hc')].
        -- exists i, c. rewrite elem_of_cons. auto.
        -- exists j, c'. rewrite elem_of_cons. auto.
      * intros (j & c' & -> & Hin & Hc'). apply elem_of_cons in Hin as [->|Hin].
        -- left. congruence.
        -- right. eauto.
    + rewrite IH. split; intros (j & c' & -> & Hin & Hc').
      * exists j, c'. rewrite elem_of_cons. auto.
      * apply elem_of_cons in Hin as [->|Hin]; [congruence|eauto].
    + rewrite IH. split; intros (j & c' & -> & Hin & Hc').
      * exists j, c'. rewrite elem_of_cons. auto.
      * apply elem_of_cons in Hin as [->|Hin]; [congruence|eauto].
Qed.

Lemma occupants_NoDup n_rows n_cols g cs :
  GridInv n_rows n_cols g -> NoDup cs -> NoDup (occupants (grid g) cs).
Proof.
  intros Inv Hnd. induction Hnd as [|c cs Hc Hnd IH]; simpl; [constructor|].
  destruct (cell (grid g) c) as [[i|]|] eqn:Hv; try exact IH.
  apply NoDup_cons. split; [|exact IH].
  intros Hin. apply occupants_elem in Hin as (j & c' & [= <-] & Hin & Hv').
  destruct (inv_cell_agent _ _ _ Inv _ _ Hv) as (a & Ha & Hca).
  destruct (inv_cell_agent _ _ _ Inv _ _ Hv') as (a' & Ha' & Hca').
  assert (Heq : c' = c) by congruence. rewrite Heq in Hin. exact (Hc Hin).
Qed.

Lemma neighbour_coords_NoDup r c : NoDup (neighbour_coords r c).
Proof.
  unfold neighbour_coords.
  repeat (apply NoDup_cons; split;
          [intros H;
           repeat (apply elem_of_cons in H as [H|H]; [injection H; lia|]);
           inversion H|]).
  constructor.
Qed.

Lemma neighbour_coords_elem r c p :
  p ∈ neighbour_coords r c
  <-> p <> (r, c) /\ Z.abs (p.1 - r) <= 1 /\ Z.abs (p.2 - c) <= 1.
Proof.
  destruct p as [pr pc]. unfold neighbour_coords.
  rewrite !elem_of_cons, elem_of_nil. simpl. split.
  - intros [H|[H|[H|[H|[H|[H|[H|[H|[]]]]]]]]];
      inversion H; subst; (split; [intros Heq; inversion Heq; lia | lia]).
  - intros (Hne & Hr & Hc).
    assert (pr = r - 1 \/ pr = r \/ pr = r + 1) as Hpr by lia.
    assert (pc = c - 1 \/ pc = c \/ pc = c + 1) as Hpc by lia.
    destruct Hpr as [Hpr|[Hpr|Hpr]], Hpc as [Hpc|[Hpc|Hpc]]; subst;
      try tauto; exfalso; apply Hne; reflexivity.
Qed.

(** X10. On a consistent grid of the module's dimensions the neighbour
    query at any position, inside the grid or not, returns without
    raising the agents found in the cells of the eight surrounding
    positions, in scan order: an agent of the store is returned exactly
    when it is positioned next to (row, col), horizontally, vertically or
    diagonally, and no agent is returned twice. *)
Theorem get_neighbours_adjacent g r c :
  GridInv N_ROWS N_COLS g ->
  get_neighbours g r c = Ok (occupants (grid g) (neighbour_coords r c))
  /\ NoDup (occupants (grid g) (neighbour_coords r c))
  /\ (forall n, n ∈ occupants (grid g) (neighbour_coords r c) <->
        exists i a, n = Some i /\ agents g !! i = Some a
                    /\ coordinates a <> (r, c)
                    /\ Z.abs (row a - r) <= 1 /\ Z.abs (col a - c) <= 1).
Proof.
  intros Inv. split; [apply feasible_occupants, Inv|]. split.
  { eapply occupants_NoDup; [exact Inv | apply neighbour_coords_NoDup]. }
  intros n. rewrite occupants_elem. split.
  - intros (i & p & -> & Hin & Hv).
    destruct (inv_cell_agent _ _ _ Inv _ _ Hv) as (a & Ha & Hca).
    apply neighbour_coords_elem in Hin. subst p.
    exists i, a. simpl in Hin. tauto.
  - intros (i & a & -> & Ha & Hne & Hr & Hc).
    exists i, (coordinates a). split; [reflexivity|]. split.
    + apply neighbour_coords_elem. simpl. auto.
    + apply (inv_agent_cell _ _ _ Inv), Ha.
Qed.

(** ** The satisfaction test at particular thresholds *)

Lemma ratio_table (a b : nat) :
  (a <= b)%nat -> (0 < b)%nat -> (b <= 8)%nat ->
  float_lt (SFdiv prec emax (fl a) (fl b)) SIMILARITY_THRESHOLD
  = (10 * a <? 3 * b)%nat
  /\ ((exists m e, SFdiv prec emax (fl a) (fl b) = S754_finite false m e)
      \/ SFdiv prec emax (fl a) (fl b) = S754_zero false).
Proof.
  intros Hab Hb Hb8.
  assert (Hall : forallb (fun b => forallb (fun a =>
            Bool.eqb (float_lt (SFdiv prec emax (fl a) (fl (S b))) SIMILARITY_THRESHOLD)
                     (10 * a <? 3 * S b)%nat
            && match SFdiv prec emax (fl a) (fl (S b)) with
               | S754_finite false _ _ | S754_zero false => true
               | _ => false
               end) (seq 0 (S (S b)))) (seq 0 8) = true)
    by (vm_compute; reflexivity).
  rewrite forallb_forall in Hall. specialize (Hall (b - 1)%nat).
  rewrite forallb_forall in Hall.
  replace (S (b - 1)) with b in Hall by lia.
  specialize (Hall ltac:(apply in_seq; lia) a ltac:(apply in_seq; lia)).
  apply andb_true_iff in Hall as [H1 H2]. apply Bool.eqb_prop in H1.
  split; [exact H1|].
  destruct (SFdiv prec emax (fl a) (fl b)) as [[]| | |[] m e];
    try discriminate; [right|left]; eauto.
Qed.

Lemma filter_similar_le g me ns :
  (length (List.filter (is_similar g me) ns) <= length ns)%nat.
Proof. apply filter_length_le. Qed.

(** X11. For an agent with the module's default threshold (the float
    0.3) the float test decides exactly the integer comparison
    [10 * n_similar < 3 * len(neighbours)]: rounding never tips it. *)
Theorem default_threshold_test (self : ref) (me : DataScientist) ns w :
  agents (env w) !! self = Some me ->
  threshold me = SIMILARITY_THRESHOLD ->
  get_neighbours (env w) (row me) (col me) = Ok ns ->
  valid_neighbours (env w) ns = true ->
  is_unsatified_with_neighbours self w
  = (Ok (10 * length (List.filter (is_similar (env w) me) ns) <? 3 * length ns)%nat,
     w).
Proof.
  intros Hme Ht Hns Hval.
  rewrite (is_unsatified_eval self me ns w Hme Hns Hval). do 2 f_equal.
  pose proof (feasible_length _ _ _ Hns) as Hlen. simpl in Hlen.
  unfold unsatisfied_verdict. destruct ns as [|n ns']; [reflexivity|].
  rewrite Ht. apply ratio_table; [apply filter_similar_le | simpl; lia | exact Hlen].
Qed.

(** X12. An agent whose threshold is zero, negative or not a number is
    never unsatisfied, whatever its neighbours. *)
Theorem no_threshold_no_move (self : ref) (me : DataScientist) ns w :
  agents (env w) !! self = Some me ->
  not_positive (threshold me) ->
  get_neighbours (env w) (row me) (col me) = Ok ns ->
  valid_neighbours (env w) ns = true ->
  is_unsatified_with_neighbours self w = (Ok false, w).
Proof.
  intros Hme Ht Hns Hval.
  rewrite (is_unsatified_eval self me ns w Hme Hns Hval). do 2 f_equal.
  pose proof (feasible_length _ _ _ Hns) as Hlen. simpl in Hlen.
  unfold unsatisfied_verdict. destruct ns as [|n ns']; [reflexivity|].
  destruct (ratio_table (length (List.filter (is_similar (env w) me) (n :: ns')))
              (length (n :: ns'))) as [_ [(m & e & ->)| ->]];
    [apply filter_similar_le | simpl; lia | exact Hlen | |];
    destruct (threshold me) as [[]|[]| |[] m' e']; try contradiction; reflexivity.
Qed.

(** ** What construction and the reachable states keep *)

Lemma is_R_new_agent lim i c : is_R (new_agent lim i c) = (i <? lim).
Proof. unfold is_R, new_agent. simpl. destruct (i <? lim); reflexivity. Qed.

Lemma make_agents_R lim (k : nat) cs :
  Z.of_nat (length (List.filter is_R (make_agents lim k cs)))
  = Z.max 0 (Z.min lim (Z.of_nat (k + length cs)) - Z.of_nat k).
Proof.
  revert k. induction cs as [|c cs IH]; intros k; simpl.
  - lia.
  - rewrite is_R_new_agent. destruct (Z.of_nat k <? lim) eqn:E.
    + apply Z.ltb_lt in E. simpl. rewrite Nat2Z.inj_succ, IH. lia.
    + apply Z.ltb_ge in E. rewrite IH. lia.
Qed.

Lemma GridWorld_init_counts os n_rows n_cols n_empty seed g0 :
  0 <= n_empty <= N_CELLS ->
  N_CELLS - n_empty <= n_positions n_rows n_cols ->
  exists g g1,
    GridWorld_init os n_rows n_cols n_empty seed g0 = (Ok g, g1)
    /\ Z.of_nat (length (agents g)) = N_CELLS - n_empty
    /\ Z.of_nat (length (List.filter is_R (agents g))) = (N_CELLS - n_empty) / 2
    /\ Z.of_nat (length (empty_cells g))
       = n_empty + (n_positions n_rows n_cols - N_CELLS).
Proof.
  intros Hn Hfit. unfold n_positions in *.
  destruct (GridWorld_init_ok os n_rows n_cols n_empty seed g0 Hn Hfit)
    as (g & g1 & Hinit & _ & Hag & Hfree & _).
  pose proof (shuffled_coords_length os n_rows n_cols seed) as Hlen.
  exists g, g1. split; [exact Hinit|].
  assert (Htake : Z.of_nat (length (take (Z.to_nat (N_CELLS - n_empty))
                                      (shuffled_coords os n_rows n_cols seed)))
                  = N_CELLS - n_empty) by (rewrite length_take; lia).
  split; [rewrite Hag, make_agents_length; exact Htake|]. split.
  - rewrite Hag, make_agents_R. simpl. rewrite Htake.
    pose proof (Z.div_pos (N_CELLS - n_empty) 2).
    pose proof (Z.div_le_upper_bound (N_CELLS - n_empty) 2 (N_CELLS - n_empty)).
    lia.
  - rewrite Hfree, length_drop. lia.
Qed.

(** X13. Construction with between 0 and [N_CELLS] empty cells, when the
    agents fit: there are [N_CELLS - n_empty] agents, half of them
    (rounded down) with language R, and every other position of the grid
    is free.  The free list has [n_empty] cells exactly on grids of
    [N_CELLS] positions. *)
Theorem init_counts os n_rows n_cols n_empty seed g0 :
  0 <= n_empty <= N_CELLS ->
  N_CELLS - n_empty <= n_positions n_rows n_cols ->
  exists g g1,
    GridWorld_init os n_rows n_cols n_empty seed g0 = (Ok g, g1)
    /\ Z.of_nat (length (agents g)) = N_CELLS - n_empty
    /\ Z.of_nat (length (List.filter is_R (agents g))) = (N_CELLS - n_empty) / 2
    /\ Z.of_nat (length (empty_cells g))
       = n_empty + (n_positions n_rows n_cols - N_CELLS).
Proof. apply GridWorld_init_counts. Qed.

(** With a negative agent count nothing is placed, and the slice
    [coords[n_agents:]] keeps the last [n_empty - N_CELLS] shuffled
    positions, or all of them. *)
Lemma GridWorld_init_starved os n_rows n_cols n_empty seed g0 :
  N_CELLS < n_empty ->
  exists g g1,
    GridWorld_init os n_rows n_cols n_empty seed g0 = (Ok g, g1)
    /\ agents g = []
    /\ Z.of_nat (length (empty_cells g))
       = Z.min (n_empty - N_CELLS) (n_positions n_rows n_cols)
    /\ (forall c, c ∈ empty_cells g -> in_bounds n_rows n_cols c).
Proof.
  intros Hn.
  pose proof (shuffled_coords_length os n_rows n_cols seed) as Hlen.
  pose proof (shuffled_coords_Permutation os n_rows n_cols seed) as Hperm.
  unfold shuffled_coords in *.
  unfold GridWorld_init, GridWorld_init_body.
  unfold bind at 1. unfold modify_env at 1. cbn [env rnd].
  unfold bind at 1. unfold get_env at 1. cbn [env rnd n_agents].
  unfold bind at 1. unfold random_seed at 1. cbn [env rnd].
  unfold bind at 1. unfold random_shuffle, with_rng. cbn [env rnd].
  destruct (shuffle _ _) as [cs g2]. simpl in Hlen, Hperm.
  assert (Hr : range (N_CELLS - n_empty) = []) by (apply seqZ_nil; lia).
  rewrite Hr. simpl. eexists _, _. split; [reflexivity|]. simpl.
  split; [reflexivity|]. unfold py_slice_from.
  replace (0 <=? N_CELLS - n_empty) with false by (symmetry; apply Z.leb_gt; lia).
  split.
  - rewrite length_drop. unfold n_positions. lia.
  - intros c Hc. apply product_elem. rewrite <- Hperm.
    eapply subseteq_drop, Hc.
Qed.

(** X14. Construction with more empty cells than [N_CELLS]: the agent
    count is negative, no agent is placed, and the slice
    [coords[n_agents:]] keeps only the last [n_empty - N_CELLS] shuffled
    positions (all of them when there are not that many), so on a larger
    grid positions are left that are neither occupied nor free. *)
Theorem init_negative_count os n_rows n_cols n_empty seed g0 :
  N_CELLS < n_empty ->
  exists g g1,
    GridWorld_init os n_rows n_cols n_empty seed g0 = (Ok g, g1)
    /\ agents g = []
    /\ Z.of_nat (length (empty_cells g))
       = Z.min (n_empty - N_CELLS) (n_positions n_rows n_cols)
    /\ (forall c, c ∈ empty_cells g -> in_bounds n_rows n_cols c).
Proof. apply GridWorld_init_starved. Qed.

Lemma reachable_agent_count n_rows n_cols n_empty w :
  0 <= n_empty <= N_CELLS ->
  reachable n_rows n_cols n_empty w ->
  Z.of_nat (length (agents (env w))) = N_CELLS - n_empty.
Proof.
  intros Hn Hreach. induction Hreach as [os seed g0 g g1 Hinit|w agent r w' _ IH Hag Hrel].
  - destruct (Z_le_gt_dec (N_CELLS - n_empty) (n_positions n_rows n_cols))
      as [Hfit|Hover].
    + destruct (GridWorld_init_counts os n_rows n_cols n_empty seed g0 Hn Hfit)
        as (g' & g1' & Heq & Hcount & _).
      rewrite Heq in Hinit. injection Hinit as <- <-. exact Hcount.
    + destruct (GridWorld_init_overfull os n_rows n_cols n_empty seed g0 Hn)
        as (g1' & Heq); [unfold n_positions in Hover; lia|].
      rewrite Heq in Hinit. discriminate.
  - pose proof (relocate_static _ _ _ _ Hrel) as Hs. unfold same_static in Hs.
    apply (f_equal length) in Hs. rewrite !length_map in Hs. simpl. lia.
Qed.

(** X15. In every state reached from a construction with between 0 and
    [N_CELLS] empty cells the free list has no duplicates and lists
    exactly the positions whose grid cell is [None]; free cells and
    agents are within the grid's bounds; and the numbers of agents and of
    free cells are those of the construction. *)
Theorem reachable_free_list n_rows n_cols n_empty w :
  0 <= n_empty <= N_CELLS ->
  reachable n_rows n_cols n_empty w ->
  NoDup (empty_cells (env w))
  /\ (forall c, c ∈ empty_cells (env w) <-> cell (grid (env w)) c = Some None)
  /\ (forall c, c ∈ empty_cells (env w) -> in_bounds n_rows n_cols c)
  /\ (forall i a, agents (env w) !! i = Some a ->
                  in_bounds n_rows n_cols (coordinates a))
  /\ Z.of_nat (length (agents (env w))) = N_CELLS - n_empty
  /\ Z.of_nat (length (empty_cells (env w)))
     = n_positions n_rows n_cols - (N_CELLS - n_empty).
Proof.
  intros Hn Hreach.
  pose proof (reachable_GridInv _ _ _ _ Hn Hreach) as Inv.
  pose proof (reachable_agent_count _ _ _ _ Hn Hreach) as Hcount.
  split; [apply (inv_free_nodup _ _ _ Inv)|].
  split; [apply (inv_free_none _ _ _ Inv)|]. split.
  { intros c Hc. apply in_bounds_max, (inv_shape _ _ _ Inv).
    apply (inv_free_none _ _ _ Inv) in Hc. rewrite Hc. eauto. }
  split.
  { intros i a Ha. apply in_bounds_max, (inv_shape _ _ _ Inv).
    rewrite (inv_agent_cell _ _ _ Inv _ _ Ha). eauto. }
  split; [exact Hcount|].
  pose proof (inv_count _ _ _ Inv). unfold n_positions. lia.
Qed.

(** X9. [get_random_empty_cell] returns a cell of the free list and
    leaves the environment as it is (only the generator advances); on an
    empty free list it raises [IndexError]. *)
Theorem get_random_empty_cell_member w :
  (empty_cells (env w) <> [] ->
   exists c g', get_random_empty_cell w = (Ok c, {| env := env w; rnd := g' |})
                /\ c ∈ empty_cells (env w))
  /\ (empty_cells (env w) = [] ->
      get_random_empty_cell w = (Raise IndexError, w)).
Proof.
  split.
  - intros Hne. exact (random_choice_ok (empty_cells (env w)) w Hne).
  - intros Hnil. unfold get_random_empty_cell, bind, get_env. rewrite Hnil.
    reflexivity.
Qed.

(** ** main *)




(** ** The moved count and the positions *)

Lemma scan_filter w :
  GridInv N_ROWS N_COLS (env w) ->
  exists f, scan w = (Ok (List.filter f (seq 0 (length (agents (env w))))), w).
Proof.
  intros Inv.
  exists (fun r => match (is_unsatified_with_neighbours r w).1 with
                   | Ok b => b
                   | Raise _ => false
                   end).
  unfold scan, bind, get_env. apply filter_m_pure. intros r Hr.
  apply elem_of_seq in Hr.
  destruct (lookup_lt_is_Some_2 (agents (env w)) r) as [me Hme]; [lia|].
  destruct (is_unsatified_ok r me w Inv Hme) as [b Hb].
  rewrite Hb. reflexivity.
Qed.

(** One move phase: the agents of [to_move] end at another position,
    all others are as they were. *)
Lemma relocate_all_changes n_rows n_cols (to_move : list ref) :
  forall w,
  GridInv n_rows n_cols (env w) ->
  empty_cells (env w) <> [] ->
  NoDup to_move ->
  (forall r, r ∈ to_move -> (r < length (agents (env w)))%nat) ->
  exists w', for_each to_move relocate w = (Ok tt, w')
    /\ GridInv n_rows n_cols (env w')
    /\ empty_cells (env w') <> []
    /\ length (agents (env w')) = length (agents (env w))
    /\ (forall r, r ∉ to_move -> agents (env w') !! r = agents (env w) !! r)
    /\ (forall r a, r ∈ to_move -> agents (env w) !! r = Some a ->
          exists a', agents (env w') !! r = Some a'
                     /\ coordinates a' <> coordinates a).
Proof.
  induction to_move as [|r l IH]; intros w Inv Hne Hnd Hall.
  - exists w. simpl. split; [reflexivity|]. split; [exact Inv|].
    split; [exact Hne|]. split; [reflexivity|]. split; [reflexivity|].
    intros r a Hr. inversion Hr.
  - apply NoDup_cons in Hnd as [Hrl Hnd].
    destruct (lookup_lt_is_Some_2 (agents (env w)) r) as [a Ha].
    { apply Hall, list_elem_of_here. }
    destruct (relocate_ok _ _ _ _ _ Inv Hne Ha) as (nl & w1 & Hrel & Hpost).
    pose proof (RelocPost_inv _ _ _ _ _ _ _ Inv Ha Hpost) as Inv1.
    pose proof (RelocPost_free_length _ _ _ _ _ Hpost) as Hfl.
    pose proof (RelocPost_agents_length _ _ _ _ _ Hpost) as Hal.
    assert (Hnew : coordinates (with_coordinates a nl) <> coordinates a).
    { replace (coordinates (with_coordinates a nl)) with nl
        by (destruct nl; reflexivity).
      intros ->. pose proof (rp_new_free _ _ _ _ _ Hpost) as Hin.
      apply (inv_free_none _ _ _ Inv) in Hin.
      rewrite (inv_agent_cell _ _ _ Inv _ _ Ha) in Hin. discriminate. }
    pose proof (rp_agents _ _ _ _ _ Hpost) as Hag.
    destruct (IH w1 Inv1) as (w2 & Hrest & Inv2 & Hne2 & Hal2 & Hsame & Hdiff).
    + intros Hnil. apply Hne. apply length_zero_iff_nil.
      rewrite <- Hfl, Hnil. reflexivity.
    + exact Hnd.
    + intros r' Hr'. rewrite Hal. apply Hall, list_elem_of_further, Hr'.
    + exists w2. simpl. rewrite (bind_ok _ _ _ _ _ Hrel).
      split; [exact Hrest|]. split; [exact Inv2|]. split; [exact Hne2|].
      split; [rewrite Hal2; exact Hal|]. split.
      * intros r' Hr'. rewrite not_elem_of_cons in Hr'. destruct Hr' as [Hne' Hr'].
        rewrite (Hsame r' Hr'), Hag. apply list_lookup_insert_ne. congruence.
      * intros r' a' Hr' Ha'. apply elem_of_cons in Hr' as [->|Hr'].
        -- assert (a' = a) by congruence. subst a'.
           exists (with_coordinates a nl). split; [|exact Hnew].
           rewrite (Hsame r Hrl), Hag. apply list_lookup_insert_eq.
           eapply lookup_lt_Some, Ha.
        -- apply (Hdiff r' a' Hr'). rewrite Hag.
           rewrite list_lookup_insert_ne; [exact Ha'|]. intros ->. contradiction.
Qed.

Lemma changed_filter (old new : list DataScientist) f :
  length new = length old ->
  (forall r, f r = false -> new !! r = old !! r) ->
  (forall r a, f r = true -> old !! r = Some a ->
     exists a', new !! r = Some a' /\ coordinates a' <> coordinates a) ->
  changed old new = List.filter f (seq 0 (length old)).
Proof.
  intros Hlen Hsame Hdiff. unfold changed. apply filter_ext_in. intros r Hr.
  apply in_seq in Hr.
  destruct (lookup_lt_is_Some_2 old r) as [a Ha]; [lia|].
  unfold changed_at. rewrite Ha. destruct (f r) eqn:Hf.
  - destruct (Hdiff r a Hf Ha) as (a' & -> & Hne).
    apply negb_true_iff, coord_eqb_neq. congruence.
  - rewrite (Hsame r Hf), Ha. apply negb_false_iff, coord_eqb_eq. reflexivity.
Qed.

Lemma run_loop_moved (fuel : nat) :
  forall max_iter conv iter tr w init res w',
  GridInv N_ROWS N_COLS (env w) ->
  empty_cells (env w) <> [] ->
  prev_agents init tr (length tr) = agents (env w) ->
  (forall k s, tr !! k = Some s ->
     moved s = length (changed (prev_agents init tr k) s.1.2)) ->
  run_loop fuel max_iter conv iter tr w = (Ok (Some res), w') ->
  forall k s, trace res !! k = Some s ->
    moved s = length (changed (prev_agents init (trace res) k) s.1.2).
Proof.
  induction fuel as [|fuel IH];
    intros max_iter conv iter tr w init res w' Inv Hne Hlast Htr H.
  - simpl in H. destruct (negb conv && (iter <? max_iter)); [discriminate|].
    injection H as <- <-. exact Htr.
  - simpl in H. destruct (negb conv && (iter <? max_iter));
      [|injection H as <- <-; exact Htr].
    destruct (scan_filter w Inv) as [f Hscan].
    rewrite (bind_ok _ _ _ _ _ Hscan) in H.
    set (to_move := List.filter f (seq 0 (length (agents (env w))))) in *.
    destruct (relocate_all_changes N_ROWS N_COLS to_move w Inv Hne)
      as (w1 & Hmove & Inv1 & Hne1 & Hlen1 & Hsame & Hdiff).
    { apply NoDup_ListNoDup, List.NoDup_filter, NoDup_ListNoDup, NoDup_seq. }
    { intros r Hr. apply list_elem_of_In, filter_In in Hr as [Hr _].
      apply in_seq in Hr. lia. }
    rewrite (bind_ok _ _ _ _ _ Hmove) in H.
    unfold bind at 1 in H. unfold get_env at 1 in H. unfold bind at 1 in H.
    destruct (report (iter + 1) (length to_move) w1) as [[[]|e] w2] eqn:Hrep;
      [|discriminate].
    pose proof (report_pure _ _ _ _ _ Hrep) as Hw2. unfold same_world in Hw2.
    subst w2.
    assert (Hch : changed (agents (env w)) (agents (env w1)) = to_move).
    { apply changed_filter; [exact Hlen1 | |].
      - intros r Hf. apply Hsame. intros Hin.
        apply list_elem_of_In, filter_In in Hin as [_ Hin]. congruence.
      - intros r a Hf Ha. apply (Hdiff r a); [|exact Ha].
        apply list_elem_of_In, filter_In. split; [|exact Hf].
        apply in_seq. apply lookup_lt_Some in Ha. lia. }
    eapply IH; [exact Inv1 | exact Hne1 | | | exact H].
    + rewrite length_app. simpl. rewrite Nat.add_1_r. simpl.
      rewrite lookup_app_r, Nat.sub_diag by lia. reflexivity.
    + intros k s Hk. apply lookup_app_Some in Hk as [Hk|[Hge Hk]].
      * pose proof (lookup_lt_Some _ _ _ Hk) as Hlt.
        rewrite (Htr k s Hk). f_equal. f_equal.
        destruct k as [|k]; [reflexivity|]. simpl.
        rewrite lookup_app_l by lia. reflexivity.
      * apply list_lookup_singleton_Some in Hk as [Hk <-].
        assert (k = length tr) by lia. subst k. cbn [moved fst snd].
        assert (Hprev : prev_agents init
                          (tr ++ [(iter + 1, agents (env w1), length to_move)])
                          (length tr) = agents (env w)).
        { rewrite <- Hlast. destruct (length tr) as [|n] eqn:En; [reflexivity|].
          simpl. rewrite lookup_app_l by lia. reflexivity. }
        rewrite Hprev, Hch. reflexivity.
Qed.

(** X4. On a consistent grid of the module's dimensions with a free
    cell, the moved count of every iteration of a run is the number of
    agents whose position differs between the previous drawing and this
    one: every relocated agent ends somewhere else, nobody else moves. *)
Theorem moved_is_changed fuel max_iter w res :
  GridInv N_ROWS N_COLS (env w) ->
  empty_cells (env w) <> [] ->
  (run fuel max_iter w).1 = Ok (Some res) ->
  forall k s, trace res !! k = Some s ->
    moved s = length (changed (prev_agents (agents (env w)) (trace res) k) s.1.2).
Proof.
  intros Inv Hne H. unfold run in H.
  destruct (run_loop fuel max_iter false 0 [] w) as [r w'] eqn:Hrun.
  simpl in H. subst r.
  apply (run_loop_moved fuel max_iter false 0 [] w (agents (env w)) res w' Inv Hne);
    [reflexivity | | exact Hrun].
  intros k s Hk. discriminate.
Qed.

(** ** Runs that move nobody, and runs on a full grid *)

Lemma scan_satisfied w : all_satisfied w -> scan w = (Ok [], w).
Proof.
  intros Hsat. unfold scan, bind, get_env.
  rewrite (filter_m_pure is_unsatified_with_neighbours (fun _ => false)).
  - f_equal. f_equal. induction (seq 0 (length (agents (env w)))); auto.
  - intros r Hr. apply Hsat. apply elem_of_seq in Hr. lia.
Qed.

Lemma run_satisfied fuel max_iter w :
  all_satisfied w -> 0 < max_iter ->
  run (S fuel) max_iter w
  = (Ok (Some {| converged := true; iteration := 1;
                 trace := [(1, agents (env w), 0%nat)] |}), w).
Proof.
  intros Hsat Hmax. unfold run. simpl.
  replace (0 <? max_iter) with true by (symmetry; apply Z.ltb_lt; exact Hmax).
  rewrite (bind_ok _ _ _ _ _ (scan_satisfied w Hsat)). simpl.
  change (run_loop fuel max_iter true 1 [(1, agents (env w), 0%nat)] w
          = (Ok (Some {| converged := true; iteration := 1;
                         trace := [(1, agents (env w), 0%nat)] |}), w)).
  apply run_loop_exit. reflexivity.
Qed.

(** X6. On a world in which no agent is unsatisfied a run of at least
    one iteration takes exactly one: it reports convergence, moves
    nobody and leaves the world, the generator included, as it was. *)
Theorem satisfied_run fuel max_iter w :
  all_satisfied w -> 0 < max_iter ->
  run (S fuel) max_iter w
  = (Ok (Some {| converged := true; iteration := 1;
                 trace := [(1, agents (env w), 0%nat)] |}), w).
Proof. apply run_satisfied. Qed.

(** X7. On a consistent grid of the module's dimensions without a free
    cell a run either finds every agent satisfied, or fails in its first
    iteration with the [IndexError] of the first relocation, before
    anything has changed. *)
Theorem run_full_grid fuel max_iter w :
  GridInv N_ROWS N_COLS (env w) ->
  empty_cells (env w) = [] ->
  0 < max_iter ->
  (all_satisfied w
   /\ run (S fuel) max_iter w
      = (Ok (Some {| converged := true; iteration := 1;
                     trace := [(1, agents (env w), 0%nat)] |}), w))
  \/ (~ all_satisfied w
      /\ run (S fuel) max_iter w = (Raise IndexError, w)).
Proof.
  intros Inv Hfull Hmax.
  destruct (scan_filter w Inv) as [f Hscan].
  destruct (List.filter f (seq 0 (length (agents (env w))))) as [|r l] eqn:Hf.
  - left. pose proof (scan_nil _ _ Hscan) as Hsat.
    split; [exact Hsat | apply run_satisfied; assumption].
  - right. split.
    + intros Hsat. rewrite (scan_satisfied w Hsat) in Hscan. discriminate.
    + unfold run. simpl.
      replace (0 <? max_iter) with true by (symmetry; apply Z.ltb_lt; exact Hmax).
      rewrite (bind_ok _ _ _ _ _ Hscan).
      apply bind_raise. simpl. apply bind_raise. apply relocate_empty, Hfull.
Qed.

(** ** Rendering *)

Lemma axis_table (c : Z) :
  0 <= c < 50 ->
  float_of_int c = Ok (lit c)
  /\ 0 <= trunc (SFmul prec emax (lit c) CELLWIDTH)
  /\ trunc (SFmul prec emax (lit c) CELLWIDTH) + trunc CELLWIDTH <= 640
  /\ trunc (SFmul prec emax (lit c) CELLWIDTH)
     <= trunc (SFadd prec emax (SFmul prec emax (lit c) CELLWIDTH) (lit 4))
  /\ trunc (SFadd prec emax (SFmul prec emax (lit c) CELLWIDTH) (lit 4))
     + trunc (SFsub prec emax CELLWIDTH (lit 8))
     <= trunc (SFmul prec emax (lit c) CELLWIDTH) + trunc CELLWIDTH.
Proof.
  intros Hc.
  assert (Hall : forallb (fun c =>
            match lit c with S754_infinity _ => false | _ => true end
            && (0 <=? trunc (SFmul prec emax (lit c) CELLWIDTH))
            && (trunc (SFmul prec emax (lit c) CELLWIDTH) + trunc CELLWIDTH <=? 640)
            && (trunc (SFmul prec emax (lit c) CELLWIDTH)
                <=? trunc (SFadd prec emax (SFmul prec emax (lit c) CELLWIDTH) (lit 4)))
            && (trunc (SFadd prec emax (SFmul prec emax (lit c) CELLWIDTH) (lit 4))
                + trunc (SFsub prec emax CELLWIDTH (lit 8))
                <=? trunc (SFmul prec emax (lit c) CELLWIDTH) + trunc CELLWIDTH))
          (seqZ 0 50) = true) by (vm_compute; reflexivity).
  rewrite forallb_forall in Hall. specialize (Hall c).
  specialize (Hall ltac:(apply list_elem_of_In, elem_of_seqZ; lia)).
  repeat (apply andb_true_iff in Hall as [Hall ?]).
  repeat split; try (apply Z.leb_le; assumption).
  clear - Hall. unfold float_of_int. fold (lit c).
  destruct (lit c); try reflexivity. discriminate.
Qed.

Lemma axis_apart (c c' : Z) :
  0 <= c < c' -> c' < 50 ->
  trunc (SFmul prec emax (lit c) CELLWIDTH) + trunc CELLWIDTH
  <= trunc (SFmul prec emax (lit c') CELLWIDTH).
Proof.
  intros Hc Hc'.
  assert (Hall : forallb (fun c => forallb (fun c' =>
            (c' <=? c)
            || (trunc (SFmul prec emax (lit c) CELLWIDTH) + trunc CELLWIDTH
                <=? trunc (SFmul prec emax (lit c') CELLWIDTH)))
          (seqZ 0 50)) (seqZ 0 50) = true) by (vm_compute; reflexivity).
  rewrite forallb_forall in Hall. specialize (Hall c).
  specialize (Hall ltac:(apply list_elem_of_In, elem_of_seqZ; lia)).
  rewrite forallb_forall in Hall. specialize (Hall c').
  specialize (Hall ltac:(apply list_elem_of_In, elem_of_seqZ; lia)).
  apply orb_true_iff in Hall as [H|H]; [apply Z.leb_le in H; lia|].
  apply Z.leb_le, H.
Qed.

Lemma CELLHEIGHT_CELLWIDTH : CELLHEIGHT = CELLWIDTH.
Proof. reflexivity. Qed.

Lemma agent_calls_ok (a : DataScientist) :
  in_bounds N_ROWS N_COLS (coordinates a) -> agent_calls a = Ok (rects_of a).
Proof.
  intros [Hr Hc]. simpl in Hr, Hc. change N_ROWS with 50 in Hr.
  change N_COLS with 50 in Hc.
  destruct (axis_table (col a) Hc) as (Hfc & _).
  destruct (axis_table (row a) Hr) as (Hfr & _).
  unfold agent_calls, int_mul_float. rewrite Hfc, Hfr. reflexivity.
Qed.

Lemma draw_agents_ok (l : list DataScientist) :
  (forall a, a ∈ l -> in_bounds N_ROWS N_COLS (coordinates a)) ->
  draw_agents l = (Ok tt, flat_map rects_of l).
Proof.
  induction l as [|a l IH]; intros H; [reflexivity|].
  cbn [draw_agents flat_map].
  rewrite (agent_calls_ok a (H a (list_elem_of_here _ _))).
  rewrite IH; [reflexivity|].
  intros b Hb. apply H, list_elem_of_further, Hb.
Qed.

Lemma GridInv_agent_bounds n_rows n_cols g i a :
  GridInv n_rows n_cols g -> agents g !! i = Some a ->
  in_bounds n_rows n_cols (coordinates a).
Proof.
  intros Inv Ha. apply (inv_shape _ _ _ Inv).
  rewrite (inv_agent_cell _ _ _ Inv _ _ Ha). eauto.
Qed.

(** X17. On a consistent grid of the module's dimensions the display is
    redrawn without an exception: the background is filled, then every
    agent, in the order of the store, gets a rectangle in the colour of
    its language and a smaller one in the brighter colour.  Cut to whole
    pixels, the agent's rectangle lies within the window, the smaller one
    within the agent's rectangle, and the rectangles of two different
    agents share no pixel. *)
Theorem draw_environment_tiles (g : GridWorld) :
  GridInv N_ROWS N_COLS g ->
  draw_environment g = (Ok tt, Fill BGCOLOR :: flat_map rects_of (agents g))
  /\ (forall i a, agents g !! i = Some a ->
        inside (pixels (outer_rect a)) window
        /\ inside (pixels (inner_rect a)) (pixels (outer_rect a)))
  /\ (forall i j a b, i <> j ->
        agents g !! i = Some a -> agents g !! j = Some b ->
        apart (pixels (outer_rect a)) (pixels (outer_rect b))).
Proof.
  intros Inv. split; [|split].
  - unfold draw_environment. rewrite draw_agents_ok; [reflexivity|].
    intros a Ha. apply list_elem_of_lookup in Ha as [i Ha].
    eapply GridInv_agent_bounds; eassumption.
  - intros i a Ha.
    destruct (GridInv_agent_bounds _ _ _ _ _ Inv Ha) as [Hr Hc].
    simpl in Hr, Hc. change N_ROWS with 50 in Hr. change N_COLS with 50 in Hc.
    destruct (axis_table (col a) Hc) as (_ & Hc1 & Hc2 & Hc3 & Hc4).
    destruct (axis_table (row a) Hr) as (_ & Hr1 & Hr2 & Hr3 & Hr4).
    unfold inside, pixels, outer_rect, inner_rect, window.
    rewrite !CELLHEIGHT_CELLWIDTH.
    change WINDOWWIDTH with 640. change WINDOWHEIGHT with 640.
    repeat split; lia.
  - intros i j a b Hij Ha Hb.
    destruct (GridInv_agent_bounds _ _ _ _ _ Inv Ha) as [Hra Hca].
    destruct (GridInv_agent_bounds _ _ _ _ _ Inv Hb) as [Hrb Hcb].
    simpl in Hra, Hca, Hrb, Hcb.
    change N_ROWS with 50 in Hra, Hrb. change N_COLS with 50 in Hca, Hcb.
    assert (Hdiff : coordinates a <> coordinates b).
    { intros Heq. apply Hij.
      pose proof (inv_agent_cell _ _ _ Inv _ _ Ha) as H1.
      pose proof (inv_agent_cell _ _ _ Inv _ _ Hb) as H2.
      rewrite Heq in H1. congruence. }
    unfold apart, pixels, outer_rect. rewrite !CELLHEIGHT_CELLWIDTH.
    destruct (Z_lt_le_dec (col a) (col b)) as [H1|H1];
      [left; apply axis_apart; lia|].
    destruct (Z_lt_le_dec (col b) (col a)) as [H2|H2];
      [right; left; apply axis_apart; lia|].
    destruct (Z_lt_le_dec (row a) (row b)) as [H3|H3];
      [right; right; left; apply axis_apart; lia|].
    destruct (Z_lt_le_dec (row b) (row a)) as [H4|H4];
      [right; right; right; apply axis_apart; lia|].
    exfalso. apply Hdiff. unfold coordinates. f_equal; lia.
Qed.

(** ** Waiting for a key *)

Lemma poll_cases (p : poll) :
  (quits p = true /\ starts p = false /\ idle p = false
   /\ check_for_key_press p = Terminated)
  \/ (quits p = false /\ starts p = true /\ idle p = false
      /\ exists k, check_for_key_press p = Returned k /\ truthy k = true)
  \/ (quits p = false /\ starts p = false /\ idle p = true
      /\ exists k, check_for_key_press p = Returned k /\ truthy k = false).
Proof.
  destruct p as [q ks]. unfold quits, starts, idle, check_for_key_press.
  cbn [quit_events key_up_events].
  destruct q as [|q]; cbn [Nat.ltb Nat.leb Nat.eqb orb andb].
  - destruct ks as [|k ks].
    + right. right. repeat split; eauto.
    + destruct (k =? K_ESCAPE) eqn:Hesc.
      * left. apply Z.eqb_eq in Hesc. subst k. repeat split; reflexivity.
      * destruct (k =? 0) eqn:Hz.
        -- right. right. repeat split. exists (Some k). simpl. rewrite Hz. auto.
        -- right. left. repeat split. exists (Some k). simpl. rewrite Hz. auto.
  - left. repeat split; reflexivity.
Qed.

Lemma wait_loop_outcome (ps : list poll) :
  (wait_loop ps = Started <-> exists n p, first_busy ps n p /\ starts p = true)
  /\ (wait_loop ps = Exited <-> exists n p, first_busy ps n p /\ quits p = true).
Proof.
  induction ps as [|p ps [IHs IHq]].
  - split; (split; [discriminate|]); intros (n & p & (H & _) & _); discriminate.
  - assert (Hshift : forall (Q : poll -> bool), idle p = true ->
              ((exists n q, first_busy (p :: ps) n q /\ Q q = true)
               <-> exists n q, first_busy ps n q /\ Q q = true)).
    { intros Q Hidle. split.
      - intros (n & q & (Hn & Hb & Hbefore) & HQ). destruct n as [|n].
        + injection Hn as ->. congruence.
        + exists n, q. split; [|exact HQ]. split; [exact Hn|]. split; [exact Hb|].
          intros m r Hm Hr. apply (Hbefore (S m) r); [lia | exact Hr].
      - intros (n & q & (Hn & Hb & Hbefore) & HQ). exists (S n), q.
        split; [|exact HQ]. split; [exact Hn|]. split; [exact Hb|].
        intros m r Hm Hr. destruct m as [|m].
        + injection Hr as <-. exact Hidle.
        + apply (Hbefore m r); [lia | exact Hr]. }
    assert (Hhead : forall (Q : poll -> bool), idle p = false ->
              ((exists n q, first_busy (p :: ps) n q /\ Q q = true) <-> Q p = true)).
    { intros Q Hbusy. split.
      - intros (n & q & (Hn & Hb & Hbefore) & HQ). destruct n as [|n].
        + injection Hn as ->. exact HQ.
        + specialize (Hbefore 0%nat p ltac:(lia) eq_refl). congruence.
      - intros HQ. exists 0%nat, p. split; [|exact HQ].
        split; [reflexivity|]. split; [exact Hbusy|]. intros m r Hm. lia. }
    cbn [wait_loop].
    destruct (poll_cases p) as [(Hq & Hs & Hi & Hc)|[(Hq & Hs & Hi & k & Hc & Hk)
                                                    |(Hq & Hs & Hi & k & Hc & Hk)]];
      rewrite Hc; try rewrite Hk.
    + rewrite !(Hhead _ Hi), Hq, Hs. split; split; congruence.
    + rewrite !(Hhead _ Hi), Hq, Hs. split; split; congruence.
    + rewrite !(Hshift _ Hi). split; assumption.
Qed.

(** X18. With the images loaded, the wait for a key is decided by the
    polls of the event queue after the first one: the simulation starts
    at the first poll that is not idle if that poll has no [QUIT] event
    and its first released key is neither Escape nor the key of code 0,
    and the program exits there if the poll has a [QUIT] event or Escape
    as its first released key.  The first poll, made before the splash
    screen is shown, can end the program but never starts the
    simulation. *)
Theorem wait_for_key_outcome (p0 : poll) (ps : list poll) :
  (wait_for_user_to_press_key true (p0 :: ps) = Started
   <-> quits p0 = false
       /\ exists n p, first_busy ps n p /\ starts p = true)
  /\ (wait_for_user_to_press_key true (p0 :: ps) = Exited
      <-> quits p0 = true
          \/ exists n p, first_busy ps n p /\ quits p = true).
Proof.
  destruct (wait_loop_outcome ps) as [Hs Hq].
  unfold wait_for_user_to_press_key.
  destruct (poll_cases p0) as [(Hq0 & _ & _ & Hc)|[(Hq0 & _ & _ & k & Hc & _)
                                                  |(Hq0 & _ & _ & k & Hc & _)]];
    rewrite Hc, Hq0.
  - split; split; try discriminate; auto.
    intros [H _]. discriminate.
  - rewrite Hs, Hq. split; split; try tauto. intros [H|H]; [discriminate|exact H].
  - rewrite Hs, Hq. split; split; try tauto. intros [H|H]; [discriminate|exact H].
Qed.

(** ** The run as a chain of generations *)






End Properties.

(** * Concrete runs *)

Lemma N_CELLS_value : N_CELLS = 2500.
Proof. reflexivity. Qed.

Lemma small_world_init :
  GridWorld_init (RS := lcg) 0 2 2 2499 (Some 42) 0
  = (Ok (env small_world), rnd small_world).
Proof. vm_compute. reflexivity. Qed.

Lemma small_world_reachable : reachable 2 2 2499 small_world.
Proof.
  change small_world
    with {| env := env small_world; rnd := rnd small_world |}.
  apply (reach_init (RS := lcg) 2 2 2499 0 (Some 42) 0). exact small_world_init.
Qed.

Lemma small_world_inv : GridInv 2 2 (env small_world).
Proof.
  apply (reachable_GridInv 2 2 2499 small_world); [rewrite N_CELLS_value; lia|].
  exact small_world_reachable.
Qed.

(** Witness of C1: the state after constructing the 2 x 2 world and
    relocating its agent once. *)
Lemma reachable_invariant_witness :
  SpecInv 2 2 (env (relocate 0%nat small_world).2).
Proof.
  apply (reachable_invariant 2 2 2499); [rewrite N_CELLS_value; lia |].
  apply (reach_relocate 2 2 2499 small_world 0%nat
           (relocate 0%nat small_world).1).
  - exact small_world_reachable.
  - vm_compute. eauto.
  - destruct (relocate 0%nat small_world). reflexivity.
Defined.

Lemma small_world_agent :
  agents (env small_world) !! 0%nat = Some (agent_of small_world 0).
Proof. vm_compute. reflexivity. Qed.

(** Witness of C2: relocating the agent of the 2 x 2 world. *)
Lemma relocate_contract_witness :
  exists w' a',
    relocate 0%nat small_world = (Ok tt, w')
    /\ agents (env w') !! 0%nat = Some a'
    /\ (coordinates (agent_of small_world 0) ∈ empty_cells (env w'))
    /\ (coordinates a' ∉ empty_cells (env w'))
    /\ cell (grid (env w')) (coordinates a') = Some (Some 0%nat).
Proof.
  destruct (relocate_contract 2 2 0%nat (agent_of small_world 0) small_world)
    as (w' & a' & H1 & H2 & H3 & H4 & H5 & _).
  - exact small_world_inv.
  - vm_compute. discriminate.
  - exact small_world_agent.
  - exists w', a'. auto.
Defined.

(** Witness of C3: agent 3 of the 3 x 3 world sits in the middle, has
    four neighbours, two of them of its language; 2 / 4 is not below
    0.3. *)
Lemma unsatisfied_test_witness :
  is_unsatified_with_neighbours 3%nat world_3x3 = (Ok false, world_3x3).
Proof.
  rewrite (unsatisfied_test 3%nat (agent_of world_3x3 3)
             [Some 2; Some 0; Some 1; Some 4]%nat world_3x3).
  - reflexivity.
  - vm_compute. reflexivity.
  - vm_compute. reflexivity.
  - vm_compute. reflexivity.
Defined.

(** The agent of the 2 x 2 world has no neighbours and is not
    unsatisfied. *)
Example isolated_agent_satisfied :
  get_neighbours (env small_world) 0 0 = Ok []
  /\ (is_unsatified_with_neighbours 0%nat small_world).1 = Ok false.
Proof. split; vm_compute; reflexivity. Qed.

(** Witness of C4 (as the code has it): relocating on the full 2 x 2
    grid. *)
Lemma relocate_full_grid_witness :
  relocate 0%nat full_world = (Raise IndexError, full_world).
Proof. apply (relocate_full_grid 0%nat full_world). vm_compute. reflexivity. Defined.

(** Counterexample to C4 as stated: on the full 2 x 2 grid the free
    list is empty and [relocate] does not raise [GridFull]. *)
Lemma full_grid_relocate_not_GridFull :
  empty_cells (env full_world) = []
  /\ relocate 0%nat full_world <> (Raise GridFull, full_world).
Proof.
  split; [vm_compute; reflexivity|].
  rewrite (relocate_empty 0%nat full_world) by (vm_compute; reflexivity).
  discriminate.
Qed.

(** Counterexample to C5 as stated: with no empty cell at all (an empty
    fraction of 0) the 50 x 50 world is constructed: 2500 agents and an
    empty free list. *)
Lemma full_grid_is_constructed :
  match (GridWorld_init (RS := lcg) 0 50 50 0 (Some 42) 0).1 with
  | Ok g => empty_cells g = [] /\ length (agents g) = 2500%nat
  | Raise _ => False
  end.
Proof. vm_compute. split; reflexivity. Qed.

(** Witness of C5 (as the code has it): on a 2 x 2 grid one agent is
    accepted and 2500 agents run off the shuffled positions. *)
Lemma GridWorld_init_unvalidated_witness :
  (exists g g1, GridWorld_init (RS := lcg) 0 2 2 2499 (Some 42) 0 = (Ok g, g1))
  /\ (exists g1, GridWorld_init (RS := lcg) 0 2 2 0 (Some 42) 0
                 = (Raise IndexError, g1)).
Proof.
  split.
  - apply (GridWorld_init_unvalidated (RS := lcg) 0 2 2 2499 (Some 42) 0);
      rewrite ?N_CELLS_value; lia.
  - apply (GridWorld_init_unvalidated (RS := lcg) 0 2 2 0 (Some 42) 0);
      rewrite ?N_CELLS_value; lia.
Defined.

(** Counterexample to C6 as stated: with 3 agents on the 50 x 50 grid
    one agent is labelled R, while 3 * 0.5 rounds to 2 (ties to even or
    ties upwards alike). *)
Lemma labels_not_rounded :
  n_agents (env (world_of 50 50 2497)) = 3
  /\ map language (agents (env (world_of 50 50 2497)))
     = [LANG_R; LANG_PYTHON; LANG_PYTHON]
  /\ ~ labels_as_specified round_half_even (env (world_of 50 50 2497))
  /\ ~ labels_as_specified round_half_up (env (world_of 50 50 2497)).
Proof.
  assert (Hn : n_agents (env (world_of 50 50 2497)) = 3)
    by (vm_compute; reflexivity).
  assert (Hl : map language (agents (env (world_of 50 50 2497)))
               = [LANG_R; LANG_PYTHON; LANG_PYTHON])
    by (vm_compute; reflexivity).
  assert (Hlen : length (agents (env (world_of 50 50 2497))) = 3%nat)
    by (vm_compute; reflexivity).
  split; [exact Hn|]. split; [exact Hl|].
  unfold labels_as_specified. rewrite Hn, Hl, Hlen.
  split; intros H; vm_compute in H; discriminate.
Qed.

(** Witness of C6 (as the code has it): 3 agents on the 50 x 50 grid. *)
Lemma init_placement_witness :
  exists g g1,
    GridWorld_init (RS := lcg) 0 50 50 2497 (Some 42) 0 = (Ok g, g1)
    /\ n_agents g = 50 * 50 - 2497
    /\ empty_cells g
       = drop (Z.to_nat (50 * 50 - 2497)) (shuffled_coords (RS := lcg) 0 50 50 (Some 42)).
Proof.
  destruct (init_placement (RS := lcg) 0 50 50 2497 (Some 42) 0)
    as (_ & _ & g & g1 & H1 & H2 & _ & _ & H3);
    [lia | lia | reflexivity | rewrite N_CELLS_value; lia |].
  exists g, g1. auto.
Defined.

(** The same on the 3 x 3 world of seed 42: the position (1, 3) passes
    the test of [get_neighbours]. *)
Example get_neighbours_3x3 :
  feasible_test (env world_3x3) (1, 3) = true
  /\ get_neighbours (env world_3x3) 2 2 = Raise IndexError
  /\ get_neighbours (env world_3x3) 1 1
     = Ok [Some 2; Some 0; Some 1; Some 4]%nat.
Proof. repeat split; vm_compute; reflexivity. Qed.

(** [main] leaves 750 cells empty. *)
Example main_n_empty_value : main_n_empty = Ok 750.
Proof. vm_compute. reflexivity. Qed.

(** Asking for more empty cells than [N_CELLS] gives a negative agent
    count: no agent is placed, and the slice [coords[n_agents:]] keeps
    only the last cell, so 2499 positions are neither occupied nor free. *)
Example negative_agent_count :
  match (GridWorld_init (RS := lcg) 0 50 50 2501 (Some 42) 0).1 with
  | Ok g => n_agents g = -1 /\ agents g = [] /\ length (empty_cells g) = 1%nat
  | Raise _ => False
  end.
Proof. vm_compute. repeat split; reflexivity. Qed.

(** Without a seed the placement depends on the entropy the generator
    is seeded from. *)
Example unseeded_placement_differs :
  shuffled_coords (RS := lcg) 1 2 2 None <> shuffled_coords (RS := lcg) 2 2 2 None.
Proof. vm_compute. discriminate. Qed.


(** Witness of C10: relocating the agent of the 2 x 2 world. *)
Lemma relocate_moves_witness :
  exists a', agents (env (relocate 0%nat small_world).2) !! 0%nat = Some a'
             /\ coordinates a' <> coordinates (agent_of small_world 0)
             /\ (coordinates a' ∈ empty_cells (env small_world)).
Proof.
  apply (relocate_moves 0%nat (agent_of small_world 0) small_world).
  - exact small_world_agent.
  - intros H. apply coord_in_elem in H. vm_compute in H. discriminate.
  - reflexivity.
Defined.

(** Counterexample to C1 as stated: [GridWorld(50, 50, 2501)] is
    constructed, with an agent count of -1: no agent and one free cell,
    which do not make up the 2500 positions. *)
Lemma invariant_fails_without_agents :
  exists w, reachable (RS := lcg) 50 50 2501 w
            /\ agents (env w) = []
            /\ length (empty_cells (env w)) = 1%nat
            /\ ~ SpecInv 50 50 (env w).
Proof.
  destruct (GridWorld_init_starved (RS := lcg) 0 50 50 2501 (Some 42) 0)
    as (g & g1 & Hinit & Hag & Hlen & _); [rewrite N_CELLS_value; lia|].
  assert (Hone : length (empty_cells g) = 1%nat).
  { rewrite N_CELLS_value in Hlen. change (n_positions 50 50) with 2500 in Hlen.
    lia. }
  exists {| env := g; rnd := g1 |}. cbn [env].
  split; [apply (reach_init (RS := lcg) 50 50 2501 0 (Some 42) 0), Hinit|].
  split; [exact Hag|]. split; [exact Hone|].
  intros [Hcount _ _ _ _]. rewrite Hag, Hone in Hcount. simpl in Hcount. lia.
Qed.

(** The same on a larger grid, with half of its cells asked to be
    empty: because the agent count is taken from [N_CELLS],
    [GridWorld(100, 100, 5000)] has no agent and 2500 free cells on
    10000 positions. *)
Example invariant_fails_on_larger_grid :
  exists w, reachable (RS := lcg) 100 100 5000 w
            /\ agents (env w) = []
            /\ length (empty_cells (env w)) = 2500%nat
            /\ ~ SpecInv 100 100 (env w).
Proof.
  destruct (GridWorld_init_starved (RS := lcg) 0 100 100 5000 (Some 42) 0)
    as (g & g1 & Hinit & Hag & Hlen & _); [rewrite N_CELLS_value; lia|].
  assert (Hfree : length (empty_cells g) = 2500%nat).
  { rewrite N_CELLS_value in Hlen. change (n_positions 100 100) with 10000 in Hlen.
    lia. }
  exists {| env := g; rnd := g1 |}. cbn [env].
  split; [apply (reach_init (RS := lcg) 100 100 5000 0 (Some 42) 0), Hinit|].
  split; [exact Hag|]. split; [exact Hfree|].
  intros [Hcount _ _ _ _]. rewrite Hag, Hfree in Hcount. simpl in Hcount. lia.
Qed.

(** ** Further concrete runs *)

Lemma busy_world_init :
  GridWorld_init (RS := lcg) 0 50 50 2480 (Some 42) 0
  = (Ok (env busy_world), rnd busy_world).
Proof. vm_compute. reflexivity. Qed.

Lemma World_eta (w : World (RS := lcg)) : w = {| env := env w; rnd := rnd w |}.
Proof. destruct w. reflexivity. Qed.

Lemma busy_world_reachable : reachable 50 50 2480 busy_world.
Proof.
  rewrite (World_eta busy_world).
  apply (reach_init (RS := lcg) 50 50 2480 0 (Some 42) 0). exact busy_world_init.
Qed.

Lemma busy_world_inv : GridInv N_ROWS N_COLS (env busy_world).
Proof.
  apply (reachable_GridInv 50 50 2480 busy_world); [rewrite N_CELLS_value; lia|].
  exact busy_world_reachable.
Qed.

Lemma busy_world_free : empty_cells (env busy_world) <> [].
Proof.
  assert (H : length (empty_cells (env busy_world)) = 2480%nat)
    by (vm_compute; reflexivity).
  intros Hnil. rewrite Hnil in H. discriminate H.
Qed.

Lemma busy_run : (run 5 5 busy_world).1 = Ok (Some busy_result).
Proof. vm_compute. reflexivity. Qed.

Lemma busy_converged : converged busy_result = true.
Proof. vm_compute. reflexivity. Qed.

(** The run of the world of twenty agents: three iterations, with two,
    two and no agents moved. *)
Example busy_run_moves :
  iteration busy_result = 3 /\ map moved (trace busy_result) = [2; 2; 0]%nat.
Proof. vm_compute. split; reflexivity. Qed.

Lemma run_keeps_agents_witness :
  (forall s, s ∈ trace busy_result ->
     map static s.1.2 = map static (agents (env busy_world)))
  /\ map static (agents (env (run 5 5 busy_world).2))
     = map static (agents (env busy_world)).
Proof. apply (run_keeps_agents 5 5 busy_world busy_result). exact busy_run. Defined.

Lemma relocate_failure_witness :
  IndexError = IndexError
  /\ agents (env (relocate 0%nat full_world).2) = agents (env full_world)
  /\ empty_cells (env (relocate 0%nat full_world).2) = empty_cells (env full_world).
Proof.
  apply (relocate_failure 0%nat (agent_of full_world 0) full_world IndexError).
  - vm_compute. reflexivity.
  - rewrite relocate_empty; [reflexivity|]. vm_compute. reflexivity.
Defined.

Lemma converged_all_satisfied_witness : all_satisfied (run 5 5 busy_world).2.
Proof.
  apply (converged_all_satisfied 5 5 busy_world busy_result).
  - exact busy_run.
  - exact busy_converged.
Defined.

Lemma get_neighbours_adjacent_witness :
  get_neighbours (env busy_world) 10 42
  = Ok (occupants (grid (env busy_world)) (neighbour_coords 10 42))
  /\ NoDup (occupants (grid (env busy_world)) (neighbour_coords 10 42))
  /\ (forall n, n ∈ occupants (grid (env busy_world)) (neighbour_coords 10 42) <->
        exists i a, n = Some i /\ agents (env busy_world) !! i = Some a
                    /\ coordinates a <> (10, 42)
                    /\ Z.abs (row a - 10) <= 1 /\ Z.abs (col a - 42) <= 1).
Proof. apply (get_neighbours_adjacent (env busy_world) 10 42). exact busy_world_inv. Defined.

(** The agent at (10, 42) has the agent at (9, 43) as its only
    neighbour. *)
Example busy_world_neighbours :
  get_neighbours (env busy_world) 10 42 = Ok [Some 16%nat].
Proof. vm_compute. reflexivity. Qed.

Lemma default_threshold_test_witness :
  is_unsatified_with_neighbours 3%nat world_3x3
  = (Ok (10 * length (List.filter (is_similar (env world_3x3) (agent_of world_3x3 3))
                        [Some 2; Some 0; Some 1; Some 4]%nat)
         <? 3 * length [Some 2; Some 0; Some 1; Some 4]%nat)%nat,
     world_3x3).
Proof.
  apply (default_threshold_test 3%nat (agent_of world_3x3 3)
           [Some 2; Some 0; Some 1; Some 4]%nat world_3x3).
  - vm_compute. reflexivity.
  - vm_compute. reflexivity.
  - vm_compute. reflexivity.
  - vm_compute. reflexivity.
Defined.

Lemma no_threshold_no_move_witness :
  is_unsatified_with_neighbours 3%nat numb_world = (Ok false, numb_world).
Proof.
  apply (no_threshold_no_move 3%nat (agent_of numb_world 3)
           [Some 2; Some 0; Some 1; Some 4]%nat numb_world).
  - vm_compute. reflexivity.
  - vm_compute. exact I.
  - vm_compute. reflexivity.
  - vm_compute. reflexivity.
Defined.

Lemma init_counts_witness :
  exists g g1,
    GridWorld_init (RS := lcg) 0 50 50 2480 (Some 42) 0 = (Ok g, g1)
    /\ Z.of_nat (length (agents g)) = N_CELLS - 2480
    /\ Z.of_nat (length (List.filter is_R (agents g))) = (N_CELLS - 2480) / 2
    /\ Z.of_nat (length (empty_cells g)) = 2480 + (n_positions 50 50 - N_CELLS).
Proof.
  apply (init_counts (RS := lcg) 0 50 50 2480 (Some 42) 0).
  - rewrite N_CELLS_value. lia.
  - vm_compute. discriminate.
Defined.

Lemma init_negative_count_witness :
  exists g g1,
    GridWorld_init (RS := lcg) 0 60 60 2600 (Some 42) 0 = (Ok g, g1)
    /\ agents g = []
    /\ Z.of_nat (length (empty_cells g))
       = Z.min (2600 - N_CELLS) (n_positions 60 60)
    /\ (forall c, c ∈ empty_cells g -> in_bounds 60 60 c).
Proof.
  apply (init_negative_count (RS := lcg) 0 60 60 2600 (Some 42) 0).
  rewrite N_CELLS_value. lia.
Defined.

Lemma reachable_free_list_witness :
  NoDup (empty_cells (env small_world))
  /\ (forall c, c ∈ empty_cells (env small_world)
                <-> cell (grid (env small_world)) c = Some None)
  /\ (forall c, c ∈ empty_cells (env small_world) -> in_bounds 2 2 c)
  /\ (forall i a, agents (env small_world) !! i = Some a ->
                  in_bounds 2 2 (coordinates a))
  /\ Z.of_nat (length (agents (env small_world))) = N_CELLS - 2499
  /\ Z.of_nat (length (empty_cells (env small_world)))
     = n_positions 2 2 - (N_CELLS - 2499).
Proof.
  apply (reachable_free_list 2 2 2499 small_world).
  - rewrite N_CELLS_value. lia.
  - exact small_world_reachable.
Defined.

Lemma get_random_empty_cell_member_witness :
  (exists c g', get_random_empty_cell small_world
                = (Ok c, {| env := env small_world; rnd := g' |})
                /\ (c ∈ empty_cells (env small_world)))
  /\ get_random_empty_cell full_world = (Raise IndexError, full_world).
Proof.
  split.
  - apply (get_random_empty_cell_member small_world).
    assert (H : length (empty_cells (env small_world)) = 3%nat)
      by (vm_compute; reflexivity).
    intros Hnil. rewrite Hnil in H. discriminate H.
  - apply (get_random_empty_cell_member full_world). vm_compute. reflexivity.
Defined.

Lemma moved_is_changed_witness :
  map moved (trace busy_result) = [2; 2; 0]%nat
  /\ forall k s, trace busy_result !! k = Some s ->
       moved s = length (changed (prev_agents (agents (env busy_world))
                                    (trace busy_result) k) s.1.2).
Proof.
  split; [vm_compute; reflexivity|].
  apply (moved_is_changed 5 5 busy_world busy_result).
  - exact busy_world_inv.
  - exact busy_world_free.
  - exact busy_run.
Defined.

Lemma busy_run_pair :
  run_loop 5 5 false 0 [] busy_world = (Ok (Some busy_result), (run 5 5 busy_world).2).
Proof.
  rewrite <- busy_run. unfold run. apply surjective_pairing.
Qed.

Lemma satisfied_run_witness :
  run 1 5 (run 5 5 busy_world).2
  = (Ok (Some {| converged := true; iteration := 1;
                 trace := [(1, agents (env (run 5 5 busy_world).2), 0%nat)] |}),
     (run 5 5 busy_world).2).
Proof.
  apply (satisfied_run 0 5 (run 5 5 busy_world).2); [|lia].
  apply (run_loop_converged 5 5 false 0 [] busy_world busy_result _ busy_run_pair).
  - intros Hc. discriminate Hc.
  - exact busy_converged.
Defined.

Lemma run_full_grid_witness :
  exists g g1,
    GridWorld_init (RS := lcg) 0 50 50 0 (Some 42) 0 = (Ok g, g1)
    /\ ((all_satisfied {| env := g; rnd := g1 |}
         /\ run 1 5 {| env := g; rnd := g1 |}
            = (Ok (Some {| converged := true; iteration := 1;
                           trace := [(1, agents g, 0%nat)] |}),
               {| env := g; rnd := g1 |}))
        \/ (~ all_satisfied {| env := g; rnd := g1 |}
            /\ run 1 5 {| env := g; rnd := g1 |}
               = (Raise IndexError, {| env := g; rnd := g1 |}))).
Proof.
  destruct (GridWorld_init_ok (RS := lcg) 0 50 50 0 (Some 42) 0)
    as (g & g1 & Hinit & _ & _ & Hfree & Inv);
    [rewrite N_CELLS_value; lia | rewrite N_CELLS_value; reflexivity |].
  exists g, g1. split; [exact Hinit|].
  apply (run_full_grid 0 5 {| env := g; rnd := g1 |}).
  - exact Inv.
  - cbn [env]. rewrite Hfree. apply drop_ge.
    pose proof (shuffled_coords_length (RS := lcg) 0 50 50 (Some 42)) as Hlen.
    rewrite N_CELLS_value. change (Z.max 0 50 * Z.max 0 50) with 2500 in Hlen. lia.
  - lia.
Defined.


Lemma draw_environment_tiles_witness :
  draw_environment (env busy_world)
  = (Ok tt, Fill BGCOLOR :: flat_map rects_of (agents (env busy_world)))
  /\ (forall i a, agents (env busy_world) !! i = Some a ->
        inside (pixels (outer_rect a)) window
        /\ inside (pixels (inner_rect a)) (pixels (outer_rect a)))
  /\ (forall i j a b, i <> j ->
        agents (env busy_world) !! i = Some a ->
        agents (env busy_world) !! j = Some b ->
        apart (pixels (outer_rect a)) (pixels (outer_rect b))).
Proof. apply (draw_environment_tiles (env busy_world)). exact busy_world_inv. Defined.

(** The agent at row 10 and column 42 is drawn from pixel (537, 128),
    twelve pixels wide and high. *)
Example pixels_of_agent :
  pixels (outer_rect (agent_of busy_world 8)) = (537, 128, 12, 12)
  /\ pixels (inner_rect (agent_of busy_world 8)) = (541, 132, 4, 4).
Proof. vm_compute. split; reflexivity. Qed.

(** A key released before the splash screen is shown does not start the
    simulation; the next one does, and Escape after it in the same poll
    is not looked at. *)
Example wait_example :
  wait_for_user_to_press_key true
    [ {| quit_events := 0; key_up_events := [32] |};
      {| quit_events := 0; key_up_events := [] |};
      {| quit_events := 0; key_up_events := [32; K_ESCAPE] |} ] = Started
  /\ wait_for_user_to_press_key true
       [ {| quit_events := 0; key_up_events := [32] |} ] = Waiting.
Proof. split; reflexivity. Qed.
